(** * Door2Dock bike collector: a shallow embedding of [bike_collector.py]

    The script polls the TfL BikePoint feed, keeps the stations within
    800 m of Imperial College in the table [monitored_stations], and appends
    one row per serviceable monitored station to [bike_availability] on every
    collection cycle.

    The embedding follows the script function by function.  Values decoded
    from the feed are untyped JSON, as [resp.json()] delivers them, so every
    Python operation that can raise is a computation in an exception monad,
    and the functions that touch the network, the clock or the database run
    in a state-and-exception monad over a [world].

    Conventions of the model:
    - strings are byte strings holding well-formed text;
    - [requests] is the library as of version 2.27: a body that is not JSON
      raises its own JSONDecodeError, a RequestException; a body that is
      JSON and runs into a limit of the interpreter (an integer literal of
      more than 4300 digits, nesting beyond the recursion limit) raises what
      the decoder raises, which is not a RequestException;
    - the storage engine itself never fails (the script treats that as fatal)
      and the time zone database knows Europe/London; data-dependent
      failures of an INSERT (a value that cannot be bound, a NOT NULL
      violation) are modelled;
    - a table is the list of its rows in rowid order, the hidden rowid and
      the AUTOINCREMENT key being the position in that list; the one SELECT
      of the collector names only the key column of [monitored_stations],
      so SQLite answers it from the index of the primary key, in the order
      of the keys;
    - an exception that leaves [collect_once] ends the process, so what a
      connection has inserted and not committed is lost;
    - [print] and the statistics report write nothing and are left out;
    - what the C library, the Python runtime and SQLite compute on text and
      on transcendental functions is a parameter, the [platform]. *)

From Stdlib Require Import ZArith List String Ascii Bool Lia.
From Stdlib Require Import DecimalString.
From Stdlib Require Import Sorted Permutation.
From Stdlib Require Import PrimFloat SpecFloat FloatOps.
Import ListNotations.

Local Open Scope string_scope.
Local Open Scope Z_scope.
Local Open Scope list_scope.

(** ** Python values and exceptions *)

#[local] Set Warnings "-register-all".

(** The Python values the script meets: what [json.loads] builds.  A [JObj]
    holds the items of a dict, and a key is looked up from the front. *)
Inductive json : Type :=
| JNull
| JBool (b : bool)
| JInt (z : Z)
| JFloat (f : float)
| JStr (s : string)
| JArr (l : list json)
| JObj (kv : list (string * json)).

(** The ways [requests.get] itself fails: all are [requests.RequestException]. *)
Inductive transport_error : Type :=
| Timeout
| ConnectionFailure
| TooManyRedirects.

Inductive exn : Type :=
| KeyError
| TypeError
| ValueError
| AttributeError
| OverflowError
| RecursionError
| IntegrityError      (* sqlite3: NOT NULL constraint failed *)
| InterfaceError      (* sqlite3: a parameter of a type it does not support
                         (ProgrammingError in later versions) *)
| RequestTransport (k : transport_error)
| HTTPError (status : Z)
| JSONDecodeError.

(** [isinstance(e, requests.RequestException)] *)
Definition is_RequestException (e : exn) : bool :=
  match e with
  | RequestTransport _ | HTTPError _ | JSONDecodeError => true
  | _ => false
  end.

Inductive res (A : Type) : Type :=
| Ok (a : A)
| Raise (e : exn).
Arguments Ok {A} a.
Arguments Raise {A} e.

Definition rbind {A B} (m : res A) (k : A -> res B) : res B :=
  match m with
  | Ok a => k a
  | Raise e => Raise e
  end.

Declare Scope res_scope.
Delimit Scope res_scope with res.
Notation "x <- m ;; k" := (rbind m (fun x => k))
  (at level 61, m at next level, right associativity) : res_scope.

(** ** Dicts with string keys *)

Fixpoint dict_get {V} (d : list (string * V)) (k : string) : option V :=
  match d with
  | [] => None
  | (k', v) :: d' => if String.eqb k k' then Some v else dict_get d' k
  end.

(** [d[k] = v]: replaces the value of an existing key in place, appends a
    new key. *)
Fixpoint dict_set {V} (d : list (string * V)) (k : string) (v : V)
  : list (string * V) :=
  match d with
  | [] => [(k, v)]
  | (k', v') :: d' =>
      if String.eqb k k' then (k', v) :: d' else (k', v') :: dict_set d' k v
  end.

(** [o.get(k, dflt)]: only a dict has [get]. *)
Definition py_get (o : json) (k : string) (dflt : json) : res json :=
  match o with
  | JObj kv => Ok (match dict_get kv k with Some v => v | None => dflt end)
  | _ => Raise AttributeError
  end.

(** [o[k]] for a string [k]. *)
Definition py_getitem (o : json) (k : string) : res json :=
  match o with
  | JObj kv => match dict_get kv k with Some v => Ok v | None => Raise KeyError end
  | _ => Raise TypeError
  end.

Fixpoint chars (s : string) : list json :=
  match s with
  | EmptyString => []
  | String c s' => JStr (String c EmptyString) :: chars s'
  end.

(** [for x in o]: the elements of a list, the keys of a dict, the characters
    of a string. *)
Definition py_iter (o : json) : res (list json) :=
  match o with
  | JArr l => Ok l
  | JObj kv => Ok (map (fun p => JStr (fst p)) kv)
  | JStr s => Ok (chars s)
  | _ => Raise TypeError
  end.

(** [len(o)] *)
Definition py_len (o : json) : res Z :=
  match o with
  | JArr l => Ok (Z.of_nat (List.length l))
  | JObj kv => Ok (Z.of_nat (List.length kv))
  | JStr s => Ok (Z.of_nat (String.length s))
  | _ => Raise TypeError
  end.

(** Truth value, as [if not x] tests it. *)
Definition py_truthy (o : json) : bool :=
  match o with
  | JNull => false
  | JBool b => b
  | JInt z => negb (z =? 0)
  | JFloat f => negb (PrimFloat.eqb f 0%float)
  | JStr s => negb (String.eqb s "")
  | JArr l => match l with [] => false | _ => true end
  | JObj kv => match kv with [] => false | _ => true end
  end.

(** [x == "lit"] for a string literal: only an equal string is equal. *)
Definition py_eq_str (x : option json) (lit : string) : bool :=
  match x with
  | Some (JStr s) => String.eqb s lit
  | _ => false
  end.

(** ** Numbers *)

(** int to float, correctly rounded (round half to even). *)
Definition float_of_Z (z : Z) : float :=
  SF2Prim (binary_normalize prec emax z 0 false).

(** The integer part of a finite float and whether the float is that
    integer: [None] for NaN and the infinities.  The magnitude is truncated
    toward zero. *)
Definition float_trunc (f : float) : option (bool * Z * Z * Z) :=
  match Prim2SF f with
  | S754_zero _ => Some (false, 0, 0, 1)
  | S754_finite s m e =>
      if 0 <=? e then Some (s, Z.pos m * 2 ^ e, 0, 1)
      else Some (s, Z.pos m / 2 ^ (- e), Z.pos m mod 2 ^ (- e), 2 ^ (- e))
  | _ => None
  end.

Definition signed (s : bool) (z : Z) : Z := if s then - z else z.

(** [int(f)] on a float truncates; NaN is a ValueError and an infinity an
    OverflowError. *)
Definition int_of_float (f : float) : res Z :=
  match float_trunc f with
  | Some (s, q, _, _) => Ok (signed s q)
  | None => if is_nan f then Raise ValueError else Raise OverflowError
  end.

(** [round(f)] with one argument: the nearest integer, ties to even. *)
Definition py_round (f : float) : res Z :=
  match float_trunc f with
  | Some (s, q, r, d) =>
      let up := if 2 * r <? d then false
                else if d <? 2 * r then true
                else Z.odd q in
      Ok (signed s (if up then q + 1 else q))
  | None => if is_nan f then Raise ValueError else Raise OverflowError
  end.

(** A Python number as a C double ([PyFloat_AsDouble]): bool and int convert,
    an int too large for a double is an OverflowError, anything else a
    TypeError. *)
Definition py_float (v : json) : res float :=
  match v with
  | JFloat f => Ok f
  | JInt z =>
      let f := float_of_Z z in
      if is_infinity f then Raise OverflowError else Ok f
  | JBool b => Ok (if b then 1%float else 0%float)
  | _ => Raise TypeError
  end.

(** [a - b]: exact on ints (bool is an int), in doubles as soon as one side
    is a float, and a TypeError before any conversion when a side is not a
    number. *)
Definition py_sub (a b : json) : res json :=
  let as_int (v : json) : option Z :=
    match v with
    | JInt z => Some z
    | JBool b => Some (if b then 1 else 0)
    | _ => None
    end in
  let is_number (v : json) : bool :=
    match v with
    | JInt _ | JBool _ | JFloat _ => true
    | _ => false
    end in
  match as_int a, as_int b with
  | Some x, Some y => Ok (JInt (x - y))
  | _, _ =>
      if is_number a && is_number b then
        (x <- py_float a ;;
         y <- py_float b ;;
         Ok (JFloat (x - y)%float))%res
      else Raise TypeError
  end.

(** [for x in l: body], threading the loop's variables through [S]. *)
Fixpoint for_each {A S} (l : list A) (body : A -> S -> res S) (s : S) : res S :=
  match l with
  | [] => Ok s
  | x :: l' => (s' <- body x s ;; for_each l' body s')%res
  end.

(** ** The platform *)

(** The routines the script reaches through [math], [int] and SQLite's
    column affinity whose results on every input are fixed by the C library,
    the interpreter and the engine, not by the script. *)
Record platform : Type := {
  libm_sin : float -> float;
  libm_cos : float -> float;
  libm_atan2 : float -> float -> float;
  libm_pow : float -> float -> float;
  (** [int(s)] on a str: [None] is the ValueError of a string that is not
      an integer literal *)
  int_of_str : string -> option Z;
  (** a REAL rendered as text, for a column of TEXT affinity *)
  sqlite_real_to_text : float -> string;
  (** a text that looks like a number, read as a REAL, for a column of REAL
      affinity; [None] when it does not look like one *)
  sqlite_text_to_real : string -> option float
}.

(** ** KONFIGURATION *)

Definition IMPERIAL_LAT : json := JFloat 0x1.9bfd8adab9f56p+5%float.   (* 51.4988 *)
Definition IMPERIAL_LON : json := JFloat (-0x1.6631f8a0902dep-3)%float. (* -0.1749 *)
Definition SEARCH_RADIUS_M : Z := 800.
Definition POLL_INTERVAL : Z := 60.

(** ** HILFSFUNKTIONEN *)

Section Helpers.

Variable P : platform.

(** The wrapper of [math.sin], [math.cos] and [math.sqrt]: a NaN out of a
    number, or an infinity out of a finite number, is a ValueError. *)
Definition math_1 (func : float -> float) (x : float) : res float :=
  let r := func x in
  if is_nan r && negb (is_nan x) then Raise ValueError
  else if is_infinity r && is_finite x then Raise ValueError
  else Ok r.

(** The wrapper of [math.atan2]. *)
Definition math_2 (func : float -> float -> float) (x y : float) : res float :=
  let r := func x y in
  if is_nan r then
    if negb (is_nan x) && negb (is_nan y) then Raise ValueError else Ok r
  else if is_infinity r then
    if is_finite x && is_finite y then Raise OverflowError else Ok r
  else Ok r.

Definition deg_to_rad : float := (0x1.921fb54442d18p+1 / 180)%float.

Definition math_radians (x : json) : res float :=
  (f <- py_float x ;; Ok (f * deg_to_rad)%float)%res.

Definition math_sin : float -> res float := math_1 (libm_sin P).
Definition math_cos : float -> res float := math_1 (libm_cos P).
Definition math_sqrt : float -> res float := math_1 PrimFloat.sqrt.
Definition math_atan2 : float -> float -> res float := math_2 (libm_atan2 P).

(** [x ** 2] on a float: the interpreter settles NaN, the infinities, zero
    and one itself, takes the absolute value of a negative base (the
    exponent is even) and leaves the rest to the C library's [pow]; a result
    that overflows is an OverflowError. *)
Definition float_pow2 (x : float) : res float :=
  if is_nan x then Ok x
  else if is_infinity x then Ok (abs x)
  else if PrimFloat.eqb x 0%float then Ok 0%float
  else
    let iv := abs x in
    if PrimFloat.eqb iv 1%float then Ok 1%float
    else
      let ix := libm_pow P iv 2%float in
      if is_infinity ix then Raise OverflowError else Ok ix.

Definition haversine (lat1 lon1 lat2 lon2 : json) : res float :=
  (let R := 6371000 in
   phi1 <- math_radians lat1 ;;
   phi2 <- math_radians lat2 ;;
   dlat <- py_sub lat2 lat1 ;;
   dphi <- math_radians dlat ;;
   dlon <- py_sub lon2 lon1 ;;
   dlambda <- math_radians dlon ;;
   s1 <- math_sin (dphi / 2)%float ;;
   s1 <- float_pow2 s1 ;;
   c1 <- math_cos phi1 ;;
   c2 <- math_cos phi2 ;;
   s2 <- math_sin (dlambda / 2)%float ;;
   s2 <- float_pow2 s2 ;;
   let a := (s1 + c1 * c2 * s2)%float in
   y <- math_sqrt a ;;
   x <- math_sqrt (1 - a)%float ;;
   t <- math_atan2 y x ;;
   Ok (float_of_Z (R * 2) * t)%float)%res.

Definition recognized_keys : list string :=
  ["NbBikes"; "NbEBikes"; "NbEmptyDocks"; "NbDocks";
   "NbStandardBikes"; "Installed"; "Locked"].

(** [key in (...)]: a key that is not a string equals none of them. *)
Definition recognized (key : json) : option string :=
  match key with
  | JStr k => if existsb (String.eqb k) recognized_keys then Some k else None
  | _ => None
  end.

Definition props_t : Type := list (string * json).

(** The body of the loop of [parse_properties]. *)
Definition parse_property (p : json) (props : props_t) : res props_t :=
  (key <- py_get p "key" (JStr "") ;;
   val <- py_get p "value" (JStr "") ;;
   match recognized key with
   | Some k => Ok (dict_set props k val)
   | None => Ok props
   end)%res.

Definition parse_properties (additional_properties : json) : res props_t :=
  (ps <- py_iter additional_properties ;;
   for_each ps parse_property [])%res.

End Helpers.

(** ** DATENBANK *)

(** A value as SQLite stores it (no blob is ever bound). *)
Inductive sql_value : Type :=
| SNull
| SInt (z : Z)
| SReal (f : float)
| SText (s : string).

(** What the [sqlite3] module makes of a statement parameter: None is NULL,
    bool and int are INTEGER (64 bits, beyond that an OverflowError), float
    is REAL (a NaN is stored as NULL), str is TEXT; a list or a dict cannot
    be bound. *)
Definition sql_bind (v : json) : res sql_value :=
  match v with
  | JNull => Ok SNull
  | JBool b => Ok (SInt (if b then 1 else 0))
  | JInt z =>
      if (- 2 ^ 63 <=? z) && (z <? 2 ^ 63) then Ok (SInt z)
      else Raise OverflowError
  | JFloat f => Ok (if is_nan f then SNull else SReal f)
  | JStr s => Ok (SText s)
  | JArr _ | JObj _ => Raise InterfaceError
  end.

Definition decimal (z : Z) : string := NilZero.string_of_int (Z.to_int z).

Section Affinity.

Variable P : platform.

(** A column declared TEXT holds NULL or text: numbers are rendered. *)
Definition affinity_text (v : sql_value) : option string :=
  match v with
  | SNull => None
  | SInt z => Some (decimal z)
  | SReal f => Some (sqlite_real_to_text P f)
  | SText s => Some s
  end.

(** A column declared REAL turns integers, and text that looks like a
    number, into REAL; other text stays text. *)
Definition affinity_real (v : sql_value) : sql_value :=
  match v with
  | SInt z => SReal (float_of_Z z)
  | SText s =>
      match sqlite_text_to_real P s with
      | Some f => SReal f
      | None => SText s
      end
  | _ => v
  end.

End Affinity.

(** CREATE TABLE monitored_stations (station_id TEXT PRIMARY KEY,
    station_name TEXT, latitude REAL, longitude REAL, distance_m REAL) *)
Record ms_row : Type := {
  ms_station_id : option string;
  ms_station_name : option string;
  ms_latitude : sql_value;
  ms_longitude : sql_value;
  ms_distance_m : sql_value
}.

(** CREATE TABLE bike_availability: [timestamp] and [station_id] are TEXT NOT
    NULL, the name is TEXT, the five counts are INTEGER and only ever bound
    to Python ints, the coordinates are REAL. *)
Record ba_row : Type := {
  ba_timestamp : string;
  ba_station_id : string;
  ba_station_name : option string;
  ba_available_bikes : Z;
  ba_standard_bikes : Z;
  ba_ebikes : Z;
  ba_empty_docks : Z;
  ba_total_docks : Z;
  ba_latitude : sql_value;
  ba_longitude : sql_value
}.

Record database : Type := {
  monitored_stations : list ms_row;
  bike_availability : list ba_row
}.

(** A primary key that is not an INTEGER admits NULL, and a NULL conflicts
    with no row; text keys compare byte by byte. *)
Definition same_key (k : string) (r : ms_row) : bool :=
  match ms_station_id r with
  | Some k' => String.eqb k k'
  | None => false
  end.

(** INSERT OR REPLACE INTO monitored_stations: the row with the same key, if
    any, is deleted and the new row gets the next rowid. *)
Definition insert_or_replace (t : list ms_row) (r : ms_row) : list ms_row :=
  match ms_station_id r with
  | Some k => filter (fun r' => negb (same_key k r')) t ++ [r]
  | None => t ++ [r]
  end.

(** The order of the index SQLite keeps for the primary key: NULL comes
    before any text, and text compares byte by byte. *)
Definition key_le (a b : option string) : bool :=
  match a, b with
  | None, _ => true
  | Some _, None => false
  | Some x, Some y => String.leb x y
  end.

Fixpoint insert_by_key (k : option string) (l : list (option string))
  : list (option string) :=
  match l with
  | [] => [k]
  | h :: t => if key_le k h then k :: l else h :: insert_by_key k t
  end.

(** The keys of the table [t] as a scan of that index yields them: in the
    order of the keys, the NULLs among themselves in rowid order. *)
Definition index_scan (t : list ms_row) : list (option string) :=
  fold_right insert_by_key [] (map ms_station_id t).

(** ** The world: network, clock, database and what was called *)

(** The limits of the interpreter a body that is JSON can exceed: the
    decoder converts an integer literal with [int], which gives up beyond
    4300 digits with a ValueError, and it recurses on nested arrays and
    objects, up to the recursion limit. *)
Inductive decoder_limit : Type :=
| IntMaxStrDigits
| RecursionLimit.

(** What one GET of the feed URL comes to: no response at all, or a
    response with its status and, when the body is JSON, what it decodes
    to; or a response with a body that is JSON beyond what the decoder
    takes. *)
Inductive http_result : Type :=
| NoResponse (k : transport_error)
| Response (status : Z) (body : option json)
| ResponseOverLimit (status : Z) (l : decoder_limit).

Record env : Type := {
  (** the outcome of the n-th GET of the process *)
  http_get : nat -> http_result;
  (** [datetime.now(timezone.utc).isoformat()] at the n-th reading of the clock *)
  utc_now : nat -> string;
  (** London time at the n-th reading of the clock *)
  london_now : nat -> string
}.

Inductive event : Type :=
| CallCollect
| CallDiscover
| HttpGet
| Sleep (seconds : Z).

Record world : Type := {
  db : database;
  gets : nat;          (* GETs issued so far *)
  ticks : nat;         (* clock readings so far *)
  trace : list event   (* calls made so far, oldest first *)
}.

Definition set_db (d : database) (w : world) : world :=
  {| db := d; gets := gets w; ticks := ticks w; trace := trace w |}.

Definition log (e : event) (w : world) : world :=
  {| db := db w; gets := gets w; ticks := ticks w; trace := trace w ++ [e] |}.

Definition count_get (w : world) : world :=
  {| db := db w; gets := S (gets w); ticks := ticks w; trace := trace w |}.

Definition tick (w : world) : world :=
  {| db := db w; gets := gets w; ticks := S (ticks w); trace := trace w |}.

Definition M (A : Type) : Type := world -> res A * world.

Definition ret {A} (a : A) : M A := fun w => (Ok a, w).

Definition mbind {A B} (m : M A) (k : A -> M B) : M B :=
  fun w =>
    match m w with
    | (Ok a, w') => k a w'
    | (Raise e, w') => (Raise e, w')
    end.

Definition lift {A} (r : res A) : M A := fun w => (r, w).

Declare Scope M_scope.
Delimit Scope M_scope with M.
Notation "x <- m ;; k" := (mbind m (fun x => k))
  (at level 61, m at next level, right associativity) : M_scope.

(** [try: m  except requests.RequestException as e: h e] *)
Definition try_except_RequestException {A} (m : M A) (h : exn -> M A) : M A :=
  fun w =>
    match m w with
    | (Raise e, w') => if is_RequestException e then h e w' else (Raise e, w')
    | r => r
    end.

Fixpoint mfor {A} (l : list A) (body : A -> M unit) : M unit :=
  match l with
  | [] => ret tt
  | x :: l' => (_ <- body x ;; mfor l' body)%M
  end.

Definition emit (e : event) : M unit := fun w => (Ok tt, log e w).

(** [sqlite3.connect(DB_PATH)]: the connection sees the committed database
    and works on it until [commit]. *)
Definition sqlite3_connect : M database := fun w => (Ok (db w), w).

Definition conn_commit (conn : database) : M unit :=
  fun w => (Ok tt, set_db conn w).

Definition time_sleep (seconds : Z) : M unit := emit (Sleep seconds).

(** ** The script *)

(** An entry of [nearby]: the dict [discover_stations] builds per kept
    station. *)
Record nearby_station : Type := {
  nb_station_id : json;
  nb_station_name : json;
  nb_latitude : json;
  nb_longitude : json;
  nb_distance_m : Z;
  nb_total_docks : json;
  nb_available_bikes : json;
  nb_ebikes : json
}.

(** [list.sort(key=...)] is stable: an entry goes before the first entry of
    the sorted rest whose key is not smaller. *)
Fixpoint insert_by_distance (x : nearby_station) (l : list nearby_station)
  : list nearby_station :=
  match l with
  | [] => [x]
  | y :: l' =>
      if nb_distance_m y <? nb_distance_m x
      then y :: insert_by_distance x l'
      else x :: y :: l'
  end.

Definition sort_by_distance (l : list nearby_station) : list nearby_station :=
  fold_right insert_by_distance [] l.

Definition props_get (props : props_t) (k : string) (dflt : json) : json :=
  match dict_get props k with
  | Some v => v
  | None => dflt
  end.

Section Script.

Variable P : platform.
Variable E : env.

(** [requests.get(TFL_BIKEPOINT_URL, timeout=30)]: the response, as its
    status and what there is to decode. *)
Definition requests_get : M (Z * (option json + decoder_limit)) :=
  fun w =>
    let w' := count_get (log HttpGet w) in
    match http_get E (gets w) with
    | NoResponse k => (Raise (RequestTransport k), w')
    | Response status body => (Ok (status, inl body), w')
    | ResponseOverLimit status l => (Ok (status, inr l), w')
    end.

(** [resp.raise_for_status()] raises on a 4xx or 5xx status. *)
Definition raise_for_status (status : Z) : res unit :=
  if (400 <=? status) && (status <? 600) then Raise (HTTPError status)
  else Ok tt.

(** [resp.json()]: a body that is not JSON is requests' JSONDecodeError, a
    RequestException; requests wraps nothing else, so what the decoder
    raises on a body beyond its limits comes out as it is. *)
Definition resp_json (body : option json + decoder_limit) : res json :=
  match body with
  | inl (Some v) => Ok v
  | inl None => Raise JSONDecodeError
  | inr IntMaxStrDigits => Raise ValueError
  | inr RecursionLimit => Raise RecursionError
  end.

Definition fetch_all_stations : M json :=
  (resp <- requests_get ;;
   _ <- lift (raise_for_status (fst resp)) ;;
   stations <- lift (resp_json (snd resp)) ;;
   _ <- lift (py_len stations) ;;       (* the f-string of the log line *)
   ret stations)%M.

(** *** STATION DISCOVERY *)

(** [dist <= SEARCH_RADIUS_M]: 800 is a double, so the comparison of the
    float with the int is the comparison of doubles. *)
Definition within_radius (dist : float) : bool :=
  PrimFloat.leb dist (float_of_Z SEARCH_RADIUS_M).

(** The body of [for station in all_stations], on the list [nearby]. *)
Definition discover_station (station : json) (nearby : list nearby_station)
  : res (list nearby_station) :=
  (lat <- py_get station "lat" (JInt 0) ;;
   lon <- py_get station "lon" (JInt 0) ;;
   dist <- haversine P IMPERIAL_LAT IMPERIAL_LON lat lon ;;
   if within_radius dist then
     ap <- py_get station "additionalProperties" (JArr []) ;;
     props <- parse_properties ap ;;
     id <- py_getitem station "id" ;;
     name <- py_getitem station "commonName" ;;
     d <- py_round dist ;;
     Ok (app nearby
           [{| nb_station_id := id;
               nb_station_name := name;
               nb_latitude := lat;
               nb_longitude := lon;
               nb_distance_m := d;
               nb_total_docks := props_get props "NbDocks" (JStr "?");
               nb_available_bikes := props_get props "NbBikes" (JStr "?");
               nb_ebikes := props_get props "NbEBikes" (JStr "?") |}])
   else Ok nearby)%res.

Definition discover_loop (all_stations : json) : res (list nearby_station) :=
  (l <- py_iter all_stations ;;
   for_each l discover_station [])%res.

(** The row one [conn.execute("INSERT OR REPLACE INTO monitored_stations
    ...")] writes: the five parameters are bound in order and take the
    affinity of their column. *)
Definition ms_row_of (s : nearby_station) : res ms_row :=
  (id <- sql_bind (nb_station_id s) ;;
   name <- sql_bind (nb_station_name s) ;;
   lat <- sql_bind (nb_latitude s) ;;
   lon <- sql_bind (nb_longitude s) ;;
   dist <- sql_bind (JInt (nb_distance_m s)) ;;
   Ok {| ms_station_id := affinity_text P id;
         ms_station_name := affinity_text P name;
         ms_latitude := affinity_real P lat;
         ms_longitude := affinity_real P lon;
         ms_distance_m := affinity_real P dist |})%res.

Definition execute_upsert (s : nearby_station) (conn : database) : res database :=
  (row <- ms_row_of s ;;
   Ok {| monitored_stations := insert_or_replace (monitored_stations conn) row;
         bike_availability := bike_availability conn |})%res.

Definition discover_stations : M (list nearby_station) :=
  (_ <- emit CallDiscover ;;
   fetched <- try_except_RequestException
                (all_stations <- fetch_all_stations ;; ret (Some all_stations))
                (fun _ => ret None) ;;
   match fetched with
   | None => ret []
   | Some all_stations =>
       nearby <- lift (discover_loop all_stations) ;;
       let nearby := sort_by_distance nearby in
       conn <- sqlite3_connect ;;
       conn <- lift (for_each nearby execute_upsert conn) ;;
       _ <- conn_commit conn ;;
       ret nearby
   end)%M.

(** *** DATENSAMMLUNG *)

(** [SELECT station_id FROM monitored_stations]: a key comes back as a str,
    or as None when it is NULL.  The statement has no ORDER BY and names
    only the key column, so SQLite reads the index of the primary key
    instead of the table, and the keys come back in the order of the
    index. *)
Definition get_monitored_station_ids : M (list (option string)) :=
  (conn <- sqlite3_connect ;;
   ret (index_scan (monitored_stations conn)))%M.

Definition hashable (k : json) : bool :=
  match k with
  | JArr _ | JObj _ => false
  | _ => true
  end.

(** [{s["id"]: s for s in all_stations}], kept as the list of its
    insertions, newest first: a key inserted again takes the later value, so
    a lookup is answered by the newest insertion with an equal key. *)
Definition station_map_t : Type := list (json * json).

Definition station_map_insert (s : json) (m : station_map_t) : res station_map_t :=
  (k <- py_getitem s "id" ;;
   if hashable k then Ok ((k, s) :: m) else Raise TypeError)%res.

Definition build_station_map (all_stations : json) : res station_map_t :=
  (l <- py_iter all_stations ;;
   for_each l station_map_insert [])%res.

(** Equality of a key of the map with an identifier read from the registry
    (a str or None): a str equals only the same str, None only None. *)
Definition key_is (sid : option string) (k : json) : bool :=
  match sid, k with
  | Some s, JStr s' => String.eqb s s'
  | None, JNull => true
  | _, _ => false
  end.

(** [station_map.get(sid)]; None is [JNull]. *)
Definition station_map_get (m : station_map_t) (sid : option string) : json :=
  match find (fun kv => key_is sid (fst kv)) m with
  | Some (_, s) => s
  | None => JNull
  end.

(** [int(v)] *)
Definition py_int (v : json) : res Z :=
  match v with
  | JInt z => Ok z
  | JBool b => Ok (if b then 1 else 0)
  | JFloat f => int_of_float f
  | JStr s =>
      match int_of_str P s with
      | Some z => Ok z
      | None => Raise ValueError
      end
  | _ => Raise TypeError
  end.

(** The skip test of the loop. *)
Definition not_serviceable (props : props_t) : bool :=
  py_eq_str (dict_get props "Installed") "false"
  || py_eq_str (dict_get props "Locked") "true".

(** One [conn.execute("INSERT INTO bike_availability ...")]: the ten
    parameters are bound in order, then the row is checked against NOT
    NULL. *)
Definition execute_insert (now_utc : string) (id name : json)
    (bikes standard ebikes empty docks : Z) (lat lon : json)
    (conn : database) : res database :=
  (ts <- sql_bind (JStr now_utc) ;;
   id <- sql_bind id ;;
   name <- sql_bind name ;;
   _ <- sql_bind (JInt bikes) ;;
   _ <- sql_bind (JInt standard) ;;
   _ <- sql_bind (JInt ebikes) ;;
   _ <- sql_bind (JInt empty) ;;
   _ <- sql_bind (JInt docks) ;;
   lat <- sql_bind lat ;;
   lon <- sql_bind lon ;;
   match affinity_text P ts, affinity_text P id with
   | Some ts, Some id =>
       Ok {| monitored_stations := monitored_stations conn;
             bike_availability :=
               (bike_availability conn ++
                [{| ba_timestamp := ts;
                    ba_station_id := id;
                    ba_station_name := affinity_text P name;
                    ba_available_bikes := bikes;
                    ba_standard_bikes := standard;
                    ba_ebikes := ebikes;
                    ba_empty_docks := empty;
                    ba_total_docks := docks;
                    ba_latitude := affinity_real P lat;
                    ba_longitude := affinity_real P lon |}])%list |}
   | _, _ => Raise IntegrityError
   end)%res.

(** The body of [for sid in station_ids], on the connection and the
    counter [collected]. *)
Definition collect_station (now_utc : string) (station_map : station_map_t)
    (sid : option string) (st : database * Z) : res (database * Z) :=
  let (conn, collected) := st in
  let station := station_map_get station_map sid in
  if negb (py_truthy station) then Ok (conn, collected)
  else
    (ap <- py_get station "additionalProperties" (JArr []) ;;
     props <- parse_properties ap ;;
     if not_serviceable props then Ok (conn, collected)
     else
       id <- py_getitem station "id" ;;
       name <- py_getitem station "commonName" ;;
       bikes <- py_int (props_get props "NbBikes" (JInt 0)) ;;
       standard <- py_int (props_get props "NbStandardBikes" (JInt 0)) ;;
       ebikes <- py_int (props_get props "NbEBikes" (JInt 0)) ;;
       empty <- py_int (props_get props "NbEmptyDocks" (JInt 0)) ;;
       docks <- py_int (props_get props "NbDocks" (JInt 0)) ;;
       lat <- py_getitem station "lat" ;;
       lon <- py_getitem station "lon" ;;
       conn <- execute_insert now_utc id name bikes standard ebikes empty
                 docks lat lon conn ;;
       Ok (conn, collected + 1))%res.

(** Reading the clock. *)
Definition datetime_now_utc : M string :=
  fun w => (Ok (utc_now E (ticks w)), tick w).

Definition get_london_now : M string :=
  fun w => (Ok (london_now E (ticks w)), tick w).

(** [collect_once] from [now_utc = ...] on, with the identifiers it has
    loaded.  The closing log line only reads the table. *)
Definition collect_stations (station_ids : list (option string)) : M string :=
  (now_utc <- datetime_now_utc ;;
   now_london <- get_london_now ;;
   fetched <- try_except_RequestException
                (all_stations <- fetch_all_stations ;; ret (Some all_stations))
                (fun _ => ret None) ;;
   match fetched with
   | None => ret "error"
   | Some all_stations =>
       station_map <- lift (build_station_map all_stations) ;;
       conn <- sqlite3_connect ;;
       st <- lift (for_each station_ids (collect_station now_utc station_map)
                     (conn, 0)) ;;
       _ <- conn_commit (fst st) ;;
       ret "ok"
   end)%M.

Definition collect_once : M string :=
  (_ <- emit CallCollect ;;
   station_ids <- get_monitored_station_ids ;;
   match station_ids with
   | [] =>
       _ <- discover_stations ;;
       station_ids <- get_monitored_station_ids ;;
       match station_ids with
       | [] => ret "error"
       | _ => collect_stations station_ids
       end
   | _ => collect_stations station_ids
   end)%M.

(** *** LAUFMODI *)

(** [range(n)] *)
Definition py_range (n : Z) : list Z :=
  map Z.of_nat (seq 0 (Z.to_nat n)).

Definition run_burst (cycles : Z) : M unit :=
  mfor (py_range cycles)
    (fun i =>
       _ <- collect_once ;;
       if i <? cycles - 1 then time_sleep 60 else ret tt)%M.

End Script.

(** ** A platform to evaluate on *)

(** Integer literals as [int] reads them from ASCII text: blanks around
    (space, tab, line feed, vertical tab, form feed, carriage return), a
    sign, decimal digits, single underscores between digits, and no more
    than 4300 digits. *)
Definition is_space (c : ascii) : bool :=
  let n := Z.of_nat (nat_of_ascii c) in
  ((9 <=? n) && (n <=? 13)) || (n =? 32).

Definition digit_of (c : ascii) : option Z :=
  let n := Z.of_nat (nat_of_ascii c) in
  if (48 <=? n) && (n <=? 57) then Some (n - 48) else None.

Fixpoint lstrip (s : string) : string :=
  match s with
  | String c s' => if is_space c then lstrip s' else s
  | EmptyString => s
  end.

Fixpoint string_rev (s acc : string) : string :=
  match s with
  | EmptyString => acc
  | String c s' => string_rev s' (String c acc)
  end.

Definition strip (s : string) : string :=
  string_rev (lstrip (string_rev (lstrip s) "")) "".

Fixpoint digits_value (s : string) (acc : Z) (after_digit : bool) : option Z :=
  match s with
  | EmptyString => if after_digit then Some acc else None
  | String c s' =>
      match digit_of c with
      | Some d => digits_value s' (10 * acc + d) true
      | None =>
          if Ascii.eqb c "_" && after_digit then digits_value s' acc false
          else None
      end
  end.

Fixpoint count_digits (s : string) : Z :=
  match s with
  | EmptyString => 0
  | String c s' =>
      match digit_of c with
      | Some _ => 1 + count_digits s'
      | None => count_digits s'
      end
  end.

Definition ascii_int_of_str (s : string) : option Z :=
  let t := strip s in
  if 4300 <? count_digits t then None
  else
    match t with
    | String "-" s' => option_map Z.opp (digits_value s' 0 false)
    | String "+" s' => digits_value s' 0 false
    | s' => digits_value s' 0 false
    end.

(** Sine, cosine and arc tangent by the first terms of their series, which
    is what they are near zero; the two text conversions of SQLite cover
    integers. *)
Definition small_angle_platform : platform :=
  {| libm_sin := fun x => (x - x * x * x / 6)%float;
     libm_cos := fun x => (1 - x * x / 2)%float;
     libm_atan2 := fun y x => (y / x)%float;
     libm_pow := fun x _ => (x * x)%float;
     int_of_str := ascii_int_of_str;
     sqlite_real_to_text := fun f =>
       match int_of_float f with
       | Ok z => (decimal z ++ ".0")%string
       | Raise _ => "NaN"
       end;
     sqlite_text_to_real := fun s => option_map float_of_Z (ascii_int_of_str s) |}.

(** ** The vocabulary of the properties *)

(** *** The feed *)

(** What [fetch_all_stations] comes to on the outcome of its GET. *)
Definition fetch_result (r : http_result) : res json :=
  match r with
  | NoResponse k => Raise (RequestTransport k)
  | Response status body =>
      (_ <- raise_for_status status ;;
       stations <- resp_json (inl body) ;;
       _ <- py_len stations ;;
       Ok stations)%res
  | ResponseOverLimit status l =>
      (_ <- raise_for_status status ;;
       stations <- resp_json (inr l) ;;
       _ <- py_len stations ;;
       Ok stations)%res
  end.

(** The feed failed in the way the script prepares for: no response, an
    error status, or a body that is not JSON. *)
Definition feed_failure (r : http_result) : Prop :=
  match r with
  | NoResponse _ => True
  | Response status body => 400 <= status < 600 \/ body = None
  | ResponseOverLimit status _ => 400 <= status < 600
  end.

(** A transport failure in the words of the specification: a timeout (no
    response), a status outside 2xx, or a payload that is not the JSON array
    of station objects the collector expects. *)
Definition expected_payload (body : option json) : Prop :=
  exists l, body = Some (JArr l) /\ Forall (fun s => exists kv, s = JObj kv) l.

Definition transport_failure (r : http_result) : Prop :=
  match r with
  | NoResponse _ => True
  | Response status body => ~ (200 <= status < 300) \/ ~ expected_payload body
  | ResponseOverLimit _ _ => True
  end.

(** *** Discovery *)

(** The distance [discover_stations] computes for a station of the catalog. *)
Definition station_distance (P : platform) (station : json) : res float :=
  (lat <- py_get station "lat" (JInt 0) ;;
   lon <- py_get station "lon" (JInt 0) ;;
   haversine P IMPERIAL_LAT IMPERIAL_LON lat lon)%res.

(** The entry [n] of [nearby] is the one made from [station]. *)
Definition kept_from (station : json) (n : nearby_station) : Prop :=
  py_getitem station "id" = Ok (nb_station_id n) /\
  py_getitem station "commonName" = Ok (nb_station_name n) /\
  py_get station "lat" (JInt 0) = Ok (nb_latitude n) /\
  py_get station "lon" (JInt 0) = Ok (nb_longitude n).

(** The rows a call of Discovery upserts, in order; the first parameter
    that cannot be bound stops it. *)
Fixpoint ms_rows_of (P : platform) (l : list nearby_station) : res (list ms_row) :=
  match l with
  | [] => Ok []
  | s :: l' =>
      (row <- ms_row_of P s ;;
       rows <- ms_rows_of P l' ;;
       Ok (row :: rows))%res
  end.

(** The key of a row is one of the keys of [rows]. *)
Definition key_among (rows : list ms_row) (r : ms_row) : bool :=
  match ms_station_id r with
  | Some k => existsb (same_key k) rows
  | None => false
  end.

(** The catalog types identifiers as the data model does: as strings. *)
Definition string_ids (r : http_result) : Prop :=
  forall status all_stations l station k,
    r = Response status (Some all_stations) ->
    py_iter all_stations = Ok l ->
    In station l ->
    py_getitem station "id" = Ok k ->
    exists s, k = JStr s.

(** Discovery, as a case analysis on what its GET returned; [w1] is the world
    once the call and the GET are on record. *)
Definition discovery_outcome (P : platform) (r : http_result) (w1 : world)
  : res (list nearby_station) * world :=
  match fetch_result r with
  | Raise e => if is_RequestException e then (Ok [], w1) else (Raise e, w1)
  | Ok all_stations =>
      match discover_loop P all_stations with
      | Raise e => (Raise e, w1)
      | Ok nearby =>
          match for_each (sort_by_distance nearby) (execute_upsert P) (db w1) with
          | Raise e => (Raise e, w1)
          | Ok conn => (Ok (sort_by_distance nearby), set_db conn w1)
          end
      end
  end.

(** The database Discovery leaves, from the one it finds: nothing is
    committed unless the catalog was fetched, the loop ran through and every
    row could be bound. *)
Definition discovery_db (P : platform) (r : http_result) (d : database) : database :=
  match fetch_result r with
  | Ok all_stations =>
      match discover_loop P all_stations with
      | Ok nearby =>
          match ms_rows_of P (sort_by_distance nearby) with
          | Ok rows =>
              {| monitored_stations :=
                   fold_left insert_or_replace rows (monitored_stations d);
                 bike_availability := bike_availability d |}
          | Raise _ => d
          end
      | Raise _ => d
      end
  | Raise _ => d
  end.

(** *** Property bags *)

(** The property bag of a station, as the collector parses it. *)
Definition station_props (station : json) : res props_t :=
  (ap <- py_get station "additionalProperties" (JArr []) ;;
   parse_properties ap)%res.

(** The entry [p] of a property bag is for the key [k]. *)
Definition entry_for (k : string) (p : json) : bool :=
  match py_get p "key" (JStr "") with
  | Ok (JStr k') => String.eqb k' k
  | _ => false
  end.

Definition entry_value (p : json) : json :=
  match py_get p "value" (JStr "") with
  | Ok v => v
  | Raise _ => JStr ""
  end.

(** What a property bag says for a key: the value of its last entry for
    that key, if it has one. *)
Fixpoint bag_value (ps : list json) (k : string) : option json :=
  match ps with
  | [] => None
  | p :: ps' =>
      match bag_value ps' k with
      | Some v => Some v
      | None => if entry_for k p then Some (entry_value p) else None
      end
  end.

(** The keys whose values the collector converts with [int]. *)
Definition numeric_keys : list string :=
  ["NbBikes"; "NbStandardBikes"; "NbEBikes"; "NbEmptyDocks"; "NbDocks"].

(** *** The collection cycle *)

(** The identifiers of the registry. *)
Definition registry_ids (w : world) : list (option string) :=
  map ms_station_id (monitored_stations (db w)).

(** The identifiers as the collector reads them from the registry. *)
Definition selected_ids (w : world) : list (option string) :=
  index_scan (monitored_stations (db w)).

(** The index of the GET a cycle started in [w] collects from: the one after
    Discovery's when the registry is empty. *)
Definition collection_get (w : world) : nat :=
  match registry_ids w with
  | [] => S (gets w)
  | _ => gets w
  end.

(** The key a station is filed under. *)
Definition id_of (station : json) : json :=
  match py_getitem station "id" with
  | Ok k => k
  | Raise _ => JNull
  end.

(** Every station of the map is filed under its own identifier. *)
Definition filed_by_id (m : station_map_t) : Prop :=
  forall k station, In (k, station) m -> py_getitem station "id" = Ok k.

(** [station] carries the identifier [sid] of the registry. *)
Definition has_id (sid : option string) (station : json) : bool :=
  match py_getitem station "id" with
  | Ok k => key_is sid k
  | Raise _ => false
  end.

(** The station a catalog has for an identifier: the last one carrying it. *)
Definition catalog_entry (l : list json) (sid : option string) : option json :=
  find (has_id sid) (rev l).

(** [row] is the reading of a cycle stamped [now_utc] for the identifier
    [sid], taken from the station the map has for it, which is serviceable. *)
Definition written (now_utc : string) (m : station_map_t)
    (sid : option string) (row : ba_row) : Prop :=
  sid = Some (ba_station_id row) /\
  ba_timestamp row = now_utc /\
  exists props,
    py_truthy (station_map_get m sid) = true /\
    station_props (station_map_get m sid) = Ok props /\
    not_serviceable props = false.

(** The loop skips [sid]: the map has no station for it, or one flagged
    uninstalled or locked. *)
Definition skipped (m : station_map_t) (sid : option string) : Prop :=
  py_truthy (station_map_get m sid) = false \/
  exists props,
    station_props (station_map_get m sid) = Ok props /\
    not_serviceable props = true.

(** The same two, on the catalog the map was built from: [row] is the
    reading for [sid], whose station in the catalog [l] is serviceable. *)
Definition reading_of (now_utc : string) (l : list json)
    (sid : option string) (row : ba_row) : Prop :=
  sid = Some (ba_station_id row) /\
  ba_timestamp row = now_utc /\
  exists station props,
    catalog_entry l sid = Some station /\
    station_props station = Ok props /\
    not_serviceable props = false.

(** The catalog [l] leaves a gap for [sid]: it has no station for it, or one
    flagged uninstalled or locked. *)
Definition gap (l : list json) (sid : option string) : Prop :=
  catalog_entry l sid = None \/
  exists station props,
    catalog_entry l sid = Some station /\
    station_props station = Ok props /\
    not_serviceable props = true.

(** [collect_stations], as a case analysis on what its GET returned. *)
Definition collection_outcome (P : platform) (E : env)
    (station_ids : list (option string)) (w : world) : res string * world :=
  let w2 := count_get (log HttpGet (tick (tick w))) in
  match fetch_result (http_get E (gets w)) with
  | Raise e => if is_RequestException e then (Ok "error", w2) else (Raise e, w2)
  | Ok all_stations =>
      match build_station_map all_stations with
      | Raise e => (Raise e, w2)
      | Ok m =>
          match for_each station_ids (collect_station P (utc_now E (ticks w)) m)
                  (db w, 0) with
          | Raise e => (Raise e, w2)
          | Ok st => (Ok "ok", set_db (fst st) w2)
          end
      end
  end.

(** *** The scheduler *)

(** The calls the scheduler itself makes: a cycle, a sleep. *)
Definition scheduler_event (e : event) : bool :=
  match e with
  | CallCollect | Sleep _ => true
  | CallDiscover | HttpGet => false
  end.

(** What [run_burst] asks for over the indices [l] of its loop. *)
Definition schedule (cycles : Z) (l : list Z) : list event :=
  flat_map (fun i => CallCollect :: if i <? cycles - 1 then [Sleep 60] else []) l.

(** *** Further vocabulary *)

(** [len] applies to the value. *)
Definition sized (v : json) : bool :=
  match v with
  | JArr _ | JObj _ | JStr _ => true
  | _ => false
  end.

Definition is_object (v : json) : bool :=
  match v with
  | JObj _ => true
  | _ => false
  end.

(** The entry [n] of [nearby] says of [station] what Discovery computed: its
    identifier, name and coordinates, the rounded distance, and the three
    counts of the summary, "?" where the bag has none. *)
Definition entry_of (P : platform) (station : json) (n : nearby_station) : Prop :=
  kept_from station n /\
  (exists dist,
     station_distance P station = Ok dist /\
     py_round dist = Ok (nb_distance_m n)) /\
  (exists props,
     station_props station = Ok props /\
     nb_total_docks n = props_get props "NbDocks" (JStr "?") /\
     nb_available_bikes n = props_get props "NbBikes" (JStr "?") /\
     nb_ebikes n = props_get props "NbEBikes" (JStr "?")).

(** The distance of [station] can be computed and is within the radius. *)
Definition in_radius (P : platform) (station : json) : bool :=
  match station_distance P station with
  | Ok dist => within_radius dist
  | Raise _ => false
  end.

(** The identifier a registry row gets from an entry whose identifier is a
    string. *)
Definition text_id (n : nearby_station) : option string :=
  match nb_station_id n with
  | JStr s => Some s
  | _ => None
  end.

Definition by_distance (a b : nearby_station) : Prop :=
  nb_distance_m a <= nb_distance_m b.

(** The keys of a registry that are text. *)
Definition text_keys (t : list ms_row) : list string :=
  flat_map (fun r => match ms_station_id r with
                     | Some k => [k]
                     | None => []
                     end) t.

(** The map has a station for [sid] and the collector does not skip it. *)
Definition served (m : station_map_t) (sid : option string) : bool :=
  py_truthy (station_map_get m sid) &&
  match station_props (station_map_get m sid) with
  | Ok props => negb (not_serviceable props)
  | Raise _ => false
  end.

(** The same on the catalog: its last station for [sid] is there and is not
    flagged. *)
Definition serviceable_in (l : list json) (sid : option string) : bool :=
  match catalog_entry l sid with
  | Some station =>
      match station_props station with
      | Ok props => negb (not_serviceable props)
      | Raise _ => false
      end
  | None => false
  end.

(** [row] holds what [station] says in the feed, stamped [now_utc]: the five
    counts as [int] reads them, 0 for a count the bag does not have, and the
    name and the coordinates as they are bound and stored. *)
Definition snapshot_of (P : platform) (now_utc : string) (station : json)
    (row : ba_row) : Prop :=
  ba_timestamp row = now_utc /\
  py_getitem station "id" = Ok (JStr (ba_station_id row)) /\
  (exists props,
     station_props station = Ok props /\
     py_int P (props_get props "NbBikes" (JInt 0)) = Ok (ba_available_bikes row) /\
     py_int P (props_get props "NbStandardBikes" (JInt 0))
     = Ok (ba_standard_bikes row) /\
     py_int P (props_get props "NbEBikes" (JInt 0)) = Ok (ba_ebikes row) /\
     py_int P (props_get props "NbEmptyDocks" (JInt 0)) = Ok (ba_empty_docks row) /\
     py_int P (props_get props "NbDocks" (JInt 0)) = Ok (ba_total_docks row)) /\
  (exists name v,
     py_getitem station "commonName" = Ok name /\ sql_bind name = Ok v /\
     ba_station_name row = affinity_text P v) /\
  (exists lat v,
     py_getitem station "lat" = Ok lat /\ sql_bind lat = Ok v /\
     ba_latitude row = affinity_real P v) /\
  (exists lon v,
     py_getitem station "lon" = Ok lon /\ sql_bind lon = Ok v /\
     ba_longitude row = affinity_real P v).

(** A cycle, then a sleep of 60 seconds and a cycle, [n - 1] times over. *)
Definition alternating (n : nat) : list event :=
  match n with
  | O => []
  | S k => CallCollect :: flat_map (fun _ => [Sleep 60; CallCollect]) (seq 0 k)
  end.

(** ** Worlds to evaluate on *)

Definition property (key value : string) : json :=
  JObj [("key", JStr key); ("value", JStr value)].

Definition station (id name : string) (lat lon : float) (bag : list json) : json :=
  JObj [("id", JStr id); ("commonName", JStr name);
        ("lat", JFloat lat); ("lon", JFloat lon);
        ("additionalProperties", JArr bag)].

(** About 250 m from the reference point; 3 standard bikes, 1 e-bike, 4 empty
    docks of 8. *)
Definition station_S1 : json :=
  station "S1" "Queen's Gate" 51.5 (-0.171875)
    [property "NbBikes" "4"; property "NbStandardBikes" "3";
     property "NbEBikes" "1"; property "NbEmptyDocks" "4";
     property "NbDocks" "8"; property "Installed" "true";
     property "Locked" "false"].

(** Some kilometres away. *)
Definition station_S2 : json :=
  station "S2" "Far Street" 51.53125 (-0.125) [property "NbBikes" "7"].

(** Near, and locked. *)
Definition station_S3 : json :=
  station "S3" "Locked Row" 51.5 (-0.1796875)
    [property "NbBikes" "2"; property "Locked" "true"].

(** Near, with a count that is not a number. *)
Definition station_S4 : json :=
  station "S4" "Odd Count" 51.5 (-0.17578125) [property "NbBikes" "n/a"].

(** A feed that answers every GET with [r], and a clock that shows the
    number of the reading. *)
Definition feed_always (r : http_result) : env :=
  {| http_get := fun _ => r;
     utc_now := fun n => decimal (Z.of_nat n);
     london_now := fun n => decimal (Z.of_nat n) |}.

Definition ms_row_S (id : string) : ms_row :=
  {| ms_station_id := Some id;
     ms_station_name := Some id;
     ms_latitude := SReal 51.5;
     ms_longitude := SReal (-0.171875);
     ms_distance_m := SReal 250 |}.

Definition world_with (registry : list ms_row) : world :=
  {| db := {| monitored_stations := registry; bike_availability := [] |};
     gets := 0; ticks := 0; trace := [] |}.

Definition catalog_1 : json := JArr [station_S1; station_S2; station_S3].

Definition feed_1 : env := feed_always (Response 200 (Some catalog_1)).

(** A catalog with the station whose count is not a number. *)
Definition feed_odd : env :=
  feed_always (Response 200 (Some (JArr [station_S1; station_S4]))).

(** A station within the radius whose identifier is null. *)
Definition station_anonymous : json :=
  JObj [("id", JNull); ("commonName", JStr "Nameless");
        ("lat", JFloat 51.5); ("lon", JFloat (-0.171875))].

(** A station whose latitude came as text. *)
Definition station_text_lat : json :=
  JObj [("id", JStr "S5"); ("commonName", JStr "Text Lat");
        ("lat", JStr "51.5"); ("lon", JFloat (-0.171875))].

(** The answer Discovery gives on the feed [E] from the world [w], the empty
    list when it raises. *)
Definition discovered (P : platform) (E : env) (w : world) : list nearby_station :=
  match fst (discover_stations P E w) with
  | Ok result => result
  | Raise _ => []
  end.

(** A station without an identifier, far away. *)
Definition station_no_id : json :=
  JObj [("commonName", JStr "No Id"); ("lat", JFloat 51.53125);
        ("lon", JFloat (-0.125))].

(** A serviceable station without a name. *)
Definition station_no_name : json :=
  JObj [("id", JStr "S6"); ("lat", JFloat 51.5); ("lon", JFloat (-0.171875))].

(** The bag of S1 with a second, later entry for "NbBikes" and an entry the
    collector does not know. *)
Definition bag_twice : list json :=
  [property "NbBikes" "4"; property "TerminalName" "001023";
   property "NbBikes" "5"; JObj [("key", JStr "Locked")]].

(** ** Properties *)

(** From [(x <- m ;; k) = Ok b]: [m] returned, and the equation goes on with
    [k]. *)
Ltac bind_ok H :=
  match type of H with
  | rbind ?m _ = Ok _ =>
      let a := fresh "a" in
      let Hm := fresh "Hm" in
      destruct m as [a | ?] eqn:Hm; simpl in H; [ | discriminate H ]
  end.

(** *** The order of the index *)

Lemma insert_by_key_In k x l :
  In x (insert_by_key k l) <-> x = k \/ In x l.
Proof.
  induction l as [ | h t IH ]; simpl.
  - intuition congruence.
  - destruct (key_le k h); simpl; [ intuition congruence | ].
    rewrite IH. intuition congruence.
Qed.

Lemma insert_by_key_perm k l : Permutation (k :: l) (insert_by_key k l).
Proof.
  induction l as [ | h t IH ]; simpl.
  - apply Permutation_refl.
  - destruct (key_le k h); [ apply Permutation_refl | ].
    apply perm_trans with (h :: k :: t); [ apply perm_swap | ].
    apply perm_skip, IH.
Qed.

Lemma index_scan_perm t : Permutation (map ms_station_id t) (index_scan t).
Proof.
  unfold index_scan.
  induction (map ms_station_id t) as [ | k l IH ]; simpl.
  - apply perm_nil.
  - apply perm_trans with (k :: fold_right insert_by_key [] l).
    + apply perm_skip, IH.
    + apply insert_by_key_perm.
Qed.

Lemma selected_ids_perm w : Permutation (registry_ids w) (selected_ids w).
Proof. apply index_scan_perm. Qed.

Lemma selected_ids_In w sid : In sid (selected_ids w) <-> In sid (registry_ids w).
Proof.
  split; apply Permutation_in;
    [ apply Permutation_sym | ]; apply selected_ids_perm.
Qed.

Lemma selected_ids_nil w : selected_ids w = [] <-> registry_ids w = [].
Proof.
  split; intros H.
  - apply Permutation_nil. rewrite <- H. apply Permutation_sym, selected_ids_perm.
  - apply Permutation_nil. rewrite <- H. apply selected_ids_perm.
Qed.


Lemma string_leb_trans : forall s1 s2 s3,
  String.leb s1 s2 = true -> String.leb s2 s3 = true -> String.leb s1 s3 = true.
Proof.
  assert (Hcmp : forall s1 s2 s3,
             String.compare s1 s2 <> Gt -> String.compare s2 s3 <> Gt ->
             String.compare s1 s3 <> Gt).
  { induction s1 as [ | a s1 IH ]; intros [ | b s2 ] [ | c s3 ]; simpl;
      try congruence.
    intros H12 H23.
    destruct (Ascii.compare a b) eqn:Hab; [ | | congruence ].
    - apply Ascii.compare_eq_iff in Hab. subst b.
      destruct (Ascii.compare a c); [ | congruence | congruence ].
      exact (IH _ _ H12 H23).
    - destruct (Ascii.compare b c) eqn:Hbc; [ | | congruence ].
      + apply Ascii.compare_eq_iff in Hbc. subst c. rewrite Hab. congruence.
      + assert (Hac : Ascii.compare a c = Lt).
        { unfold Ascii.compare in *. rewrite N.compare_lt_iff in *. lia. }
        rewrite Hac. congruence. }
  intros s1 s2 s3. unfold String.leb. intros H12 H23.
  specialize (Hcmp s1 s2 s3).
  destruct (String.compare s1 s2); try discriminate;
    destruct (String.compare s2 s3); try discriminate;
    destruct (String.compare s1 s3); try reflexivity;
    exfalso; apply Hcmp; congruence.
Qed.

Lemma key_le_trans a b c :
  key_le a b = true -> key_le b c = true -> key_le a c = true.
Proof.
  destruct a, b, c; simpl; try congruence. apply string_leb_trans.
Qed.

Lemma key_le_total a b : key_le a b = true \/ key_le b a = true.
Proof.
  destruct a, b; simpl; auto. apply String.leb_total.
Qed.

Lemma insert_by_key_sorted k l :
  StronglySorted (fun a b => key_le a b = true) l ->
  StronglySorted (fun a b => key_le a b = true) (insert_by_key k l).
Proof.
  induction 1 as [ | h t Ht IH Hh ]; simpl.
  - repeat constructor.
  - destruct (key_le k h) eqn:Hle.
    + constructor; [ constructor; assumption | ].
      constructor; [ exact Hle | ].
      rewrite Forall_forall in *. intros x Hx.
      exact (key_le_trans _ _ _ Hle (Hh x Hx)).
    + constructor; [ exact IH | ].
      rewrite Forall_forall in *. intros x Hx.
      apply insert_by_key_In in Hx. destruct Hx as [-> | Hx]; [ | auto ].
      destruct (key_le_total k h); congruence.
Qed.

Lemma index_scan_sorted t :
  StronglySorted (fun a b => key_le a b = true) (index_scan t).
Proof.
  unfold index_scan.
  induction (map ms_station_id t) as [ | k l IH ]; simpl.
  - constructor.
  - apply insert_by_key_sorted, IH.
Qed.

Lemma fetch_all_stations_eq E w :
  fetch_all_stations E w
  = (fetch_result (http_get E (gets w)), count_get (log HttpGet w)).
Proof.
  unfold fetch_all_stations, mbind, requests_get, lift, ret, fetch_result.
  destruct (http_get E (gets w)) as [k | status body | status l]; simpl;
    [ reflexivity | | ];
    (destruct (raise_for_status status); simpl; [ | reflexivity ]).
  - destruct body as [v | ]; simpl; [ | reflexivity ].
    destruct (py_len v); reflexivity.
  - destruct l; reflexivity.
Qed.

(** *** Sorting keeps the entries *)

Lemma insert_by_distance_In x y l :
  In y (insert_by_distance x l) <-> y = x \/ In y l.
Proof.
  induction l as [ | z l IH ]; simpl.
  - intuition congruence.
  - destruct (nb_distance_m z <? nb_distance_m x); simpl.
    + rewrite IH. intuition congruence.
    + intuition congruence.
Qed.

Lemma sort_by_distance_In y l : In y (sort_by_distance l) <-> In y l.
Proof.
  induction l as [ | x l IH ]; simpl; [ tauto | ].
  rewrite insert_by_distance_In, IH. intuition congruence.
Qed.

Lemma discover_stations_eq P E w :
  discover_stations P E w
  = discovery_outcome P (http_get E (gets w))
      (count_get (log HttpGet (log CallDiscover w))).
Proof.
  unfold discover_stations, discovery_outcome, mbind at 1, emit.
  unfold mbind at 1, try_except_RequestException, mbind at 1.
  rewrite fetch_all_stations_eq. simpl gets.
  destruct (fetch_result (http_get E (gets w))) as [all | e]; simpl.
  - unfold mbind, lift, sqlite3_connect, conn_commit, ret.
    destruct (discover_loop P all) as [nearby | e]; simpl; [ | reflexivity ].
    destruct (for_each (sort_by_distance nearby) (execute_upsert P) _);
      reflexivity.
  - destruct (is_RequestException e); reflexivity.
Qed.

(** *** The loop of Discovery *)

Section DiscoveryLoop.

Variable P : platform.

Lemma discover_station_inv station nearby nearby' :
  discover_station P station nearby = Ok nearby' ->
  exists dist,
    station_distance P station = Ok dist /\
    if within_radius dist
    then exists n, nearby' = nearby ++ [n] /\ kept_from station n
    else nearby' = nearby.
Proof.
  unfold discover_station, station_distance. intros H.
  bind_ok H. rename a into lat. bind_ok H. rename a into lon.
  bind_ok H. rename a into dist. simpl. rewrite Hm1.
  exists dist. split; [ reflexivity | ].
  destruct (within_radius dist).
  - do 5 bind_ok H. injection H as <-.
    eexists. split; [ reflexivity | ].
    unfold kept_from; simpl. auto.
  - injection H as <-. reflexivity.
Qed.

Lemma discover_loop_inv l : forall acc out,
  for_each l (discover_station P) acc = Ok out ->
  exists added,
    out = acc ++ added /\
    (forall station, In station l ->
       exists dist, station_distance P station = Ok dist /\
         (within_radius dist = true ->
          exists n, In n added /\ kept_from station n)) /\
    (forall n, In n added ->
       exists station dist,
         In station l /\ kept_from station n /\
         station_distance P station = Ok dist /\ within_radius dist = true).
Proof.
  induction l as [ | s l IH ]; simpl; intros acc out H.
  - injection H as <-. exists []. rewrite app_nil_r.
    repeat split; intros ? [].
  - bind_ok H. rename a into mid.
    destruct (discover_station_inv _ _ _ Hm) as (dist & Hd & Hs).
    destruct (IH _ _ H) as (added & -> & Hall & Hadded).
    destruct (within_radius dist) eqn:Hw.
    + destruct Hs as (n & -> & Hk).
      exists (n :: added). rewrite <- app_assoc. split; [ reflexivity | ].
      split.
      * intros station [<- | Hin].
        -- exists dist. split; [ exact Hd | ]. intros _. exists n.
           split; [ left; reflexivity | exact Hk ].
        -- destruct (Hall _ Hin) as (d & Hd' & Hn). exists d.
           split; [ exact Hd' | ]. intros Hw'.
           destruct (Hn Hw') as (n' & Hin' & Hk'). exists n'.
           split; [ right; exact Hin' | exact Hk' ].
      * intros n' [<- | Hin].
        -- exists s, dist. auto.
        -- destruct (Hadded _ Hin) as (st & d & ? & ? & ? & ?).
           exists st, d. auto.
    + subst mid. exists added. split; [ reflexivity | ]. split.
      * intros station [<- | Hin].
        -- exists dist. split; [ exact Hd | ]. intros Hw'. congruence.
        -- exact (Hall _ Hin).
      * intros n' Hin.
        destruct (Hadded _ Hin) as (st & d & ? & ? & ? & ?).
        exists st, d. auto.
Qed.

(** Two stations with the same coordinates are at the same distance. *)
Lemma kept_from_same_distance s1 s2 n :
  kept_from s1 n -> kept_from s2 n ->
  station_distance P s1 = station_distance P s2.
Proof.
  intros (_ & _ & Hlat1 & Hlon1) (_ & _ & Hlat2 & Hlon2).
  unfold station_distance. rewrite Hlat1, Hlon1, Hlat2, Hlon2. reflexivity.
Qed.

End DiscoveryLoop.

Lemma within_radius_800 dist :
  within_radius dist = PrimFloat.leb dist 800%float.
Proof. reflexivity. Qed.

(** C1. Whenever Discovery has fetched a catalog and returns, a station of
    the catalog has an entry in the returned list if and only if the
    distance computed for it is at most 800 m: none farther is kept, none
    within is dropped. *)
Theorem discovery_keeps_exactly_the_stations_in_radius :
  forall P E w status all_stations l result w',
    http_get E (gets w) = Response status (Some all_stations) ->
    raise_for_status status = Ok tt ->
    py_iter all_stations = Ok l ->
    discover_stations P E w = (Ok result, w') ->
    forall station, In station l ->
      exists dist,
        station_distance P station = Ok dist /\
        ((exists n, In n result /\ kept_from station n)
         <-> PrimFloat.leb dist 800%float = true).
Proof.
  intros P E w status all l result w' Hget Hstatus Hiter Hrun station Hin.
  rewrite discover_stations_eq, Hget in Hrun.
  unfold discovery_outcome, fetch_result in Hrun.
  rewrite Hstatus in Hrun. simpl in Hrun.
  assert (Hlen : exists n, py_len all = Ok n).
  { destruct all; simpl in Hiter; try discriminate; simpl; eauto. }
  destruct Hlen as (len & Hlen). rewrite Hlen in Hrun. simpl in Hrun.
  unfold discover_loop in Hrun. rewrite Hiter in Hrun. simpl in Hrun.
  destruct (for_each l (discover_station P) []) as [nearby | e] eqn:Hloop;
    [ | discriminate ].
  destruct (for_each (sort_by_distance nearby) _ _); [ | discriminate ].
  injection Hrun as <- _.
  destruct (discover_loop_inv P l _ _ Hloop) as (added & Hout & Hall & Hadded).
  simpl in Hout. subst added.
  destruct (Hall _ Hin) as (dist & Hd & Hkeep).
  exists dist. split; [ exact Hd | ].
  rewrite <- within_radius_800. split.
  - intros (n & Hn & Hk). apply (proj1 (sort_by_distance_In _ _)) in Hn.
    destruct (Hadded _ Hn) as (st & d & _ & Hk' & Hd' & Hw).
    rewrite (kept_from_same_distance P _ _ _ Hk Hk') in Hd.
    congruence.
  - intros Hw. destruct (Hkeep Hw) as (n & Hn & Hk).
    exists n. split; [ apply (proj2 (sort_by_distance_In _ _)), Hn | exact Hk ].
Qed.

(** *** Upserts *)

Lemma upserts_eq P l : forall conn,
  for_each l (execute_upsert P) conn
  = match ms_rows_of P l with
    | Ok rows =>
        Ok {| monitored_stations :=
                fold_left insert_or_replace rows (monitored_stations conn);
              bike_availability := bike_availability conn |}
    | Raise e => Raise e
    end.
Proof.
  induction l as [ | s l IH ]; simpl; intros conn.
  - destruct conn; reflexivity.
  - unfold execute_upsert at 1.
    destruct (ms_row_of P s) as [row | e]; simpl; [ | reflexivity ].
    rewrite IH. simpl.
    destruct (ms_rows_of P l); reflexivity.
Qed.

Lemma filter_twice {A} (f g : A -> bool) (l : list A) :
  filter f (filter g l) = filter (fun x => g x && f x) l.
Proof.
  induction l as [ | x l IH ]; simpl; [ reflexivity | ].
  destruct (g x); simpl; [ destruct (f x); rewrite IH | rewrite IH ];
    reflexivity.
Qed.

Lemma same_key_sym k r k' :
  ms_station_id r = Some k' -> same_key k r = String.eqb k k'.
Proof. unfold same_key. intros ->. reflexivity. Qed.

(** Upserting [rows] into [t] drops from [t] the rows whose key is among
    those of [rows] and appends what [rows] alone amounts to. *)
Lemma upserts_split rows : forall t,
  Forall (fun r => ms_station_id r <> None) rows ->
  fold_left insert_or_replace rows t
  = filter (fun r => negb (key_among rows r)) t
    ++ fold_left insert_or_replace rows [].
Proof.
  induction rows as [ | r rows IH ]; simpl; intros t Hkeys.
  - rewrite app_nil_r. symmetry. apply forallb_filter_id.
    apply forallb_forall. intros x _. unfold key_among.
    destruct (ms_station_id x); reflexivity.
  - inversion Hkeys as [ | ? ? Hr Hrows ]; subst.
    rewrite (IH (insert_or_replace t r) Hrows).
    rewrite (IH (insert_or_replace [] r) Hrows).
    unfold insert_or_replace.
    destruct (ms_station_id r) as [k | ] eqn:Hk; [ | congruence ].
    simpl. rewrite filter_app, <- app_assoc. f_equal.
    rewrite filter_twice. apply filter_ext. intros x.
    unfold key_among, same_key at 2. destruct (ms_station_id x) as [kx | ] eqn:Hx.
    + simpl. rewrite (same_key_sym kx r k Hk).
      unfold same_key. rewrite Hx. rewrite (String.eqb_sym k kx).
      destruct (String.eqb kx k); reflexivity.
    + unfold same_key. rewrite Hx. reflexivity.
Qed.

Lemma upserts_In rows : forall t x,
  In x (fold_left insert_or_replace rows t) -> In x t \/ In x rows.
Proof.
  induction rows as [ | r rows IH ]; simpl; intros t x H; [ auto | ].
  destruct (IH _ _ H) as [Hin | Hin]; [ | auto ].
  unfold insert_or_replace in Hin.
  destruct (ms_station_id r); apply in_app_or in Hin;
    destruct Hin as [Hin | [<- | []]]; auto.
  apply filter_In in Hin. tauto.
Qed.

Lemma key_among_In rows x :
  ms_station_id x <> None -> In x rows -> key_among rows x = true.
Proof.
  intros Hx Hin. unfold key_among.
  destruct (ms_station_id x) as [k | ] eqn:Hk; [ | congruence ].
  apply existsb_exists. exists x. split; [ exact Hin | ].
  unfold same_key. rewrite Hk. apply String.eqb_refl.
Qed.

(** Upserting the same keyed rows a second time changes nothing. *)
Lemma upserts_idempotent rows t :
  Forall (fun r => ms_station_id r <> None) rows ->
  fold_left insert_or_replace rows (fold_left insert_or_replace rows t)
  = fold_left insert_or_replace rows t.
Proof.
  intros Hkeys.
  rewrite (upserts_split rows (fold_left insert_or_replace rows t) Hkeys).
  rewrite (upserts_split rows t Hkeys) at 1 2.
  rewrite filter_app, <- app_assoc.
  rewrite filter_twice.
  replace (filter (fun r => negb (key_among rows r))
             (fold_left insert_or_replace rows [])) with (@nil ms_row).
  - simpl. f_equal. apply filter_ext. intros x.
    destruct (key_among rows x); reflexivity.
  - symmetry.
    assert (H : forall l : list ms_row,
               (forall x, In x l -> key_among rows x = true) ->
               filter (fun r => negb (key_among rows r)) l = []).
    { induction l as [ | x l IHl ]; simpl; intros Hl; [ reflexivity | ].
      rewrite (Hl x (or_introl eq_refl)). simpl. apply IHl.
      intros y Hy. apply Hl. right. exact Hy. }
    apply H. intros x Hx.
    destruct (upserts_In _ _ _ Hx) as [[] | Hin].
    apply key_among_In; [ | exact Hin ].
    rewrite Forall_forall in Hkeys. apply Hkeys, Hin.
Qed.

Lemma set_db_same w : set_db (db w) w = w.
Proof. destruct w; reflexivity. Qed.

Lemma discovery_outcome_world P r w1 :
  snd (discovery_outcome P r w1) = set_db (discovery_db P r (db w1)) w1.
Proof.
  unfold discovery_outcome, discovery_db.
  destruct (fetch_result r) as [all | e].
  - destruct (discover_loop P all) as [nearby | e]; simpl;
      [ | rewrite set_db_same; reflexivity ].
    rewrite upserts_eq.
    destruct (ms_rows_of P (sort_by_distance nearby)); simpl;
      [ reflexivity | rewrite set_db_same; reflexivity ].
  - destruct (is_RequestException e); simpl; rewrite set_db_same; reflexivity.
Qed.

Lemma ms_rows_of_keyed P l : forall rows,
  ms_rows_of P l = Ok rows ->
  (forall n, In n l -> exists s, nb_station_id n = JStr s) ->
  Forall (fun r => ms_station_id r <> None) rows.
Proof.
  induction l as [ | n l IH ]; simpl; intros rows H Hids.
  - injection H as <-. constructor.
  - bind_ok H. rename a into row. bind_ok H. rename a into rows'.
    injection H as <-. constructor.
    + destruct (Hids n (or_introl eq_refl)) as (s & Hs).
      unfold ms_row_of in Hm. rewrite Hs in Hm. simpl in Hm.
      do 4 bind_ok Hm. injection Hm as <-. simpl. discriminate.
    + apply IH; [ reflexivity | ]. intros n' Hn'. apply Hids. right. exact Hn'.
Qed.

Lemma discovery_db_idempotent P r d :
  string_ids r ->
  discovery_db P r (discovery_db P r d) = discovery_db P r d.
Proof.
  intros Hids. unfold discovery_db.
  destruct (fetch_result r) as [all | e] eqn:Hfetch; [ | reflexivity ].
  destruct (discover_loop P all) as [nearby | e] eqn:Hloop; [ | reflexivity ].
  destruct (ms_rows_of P (sort_by_distance nearby)) as [rows | e] eqn:Hrows;
    [ | reflexivity ].
  simpl. f_equal. apply upserts_idempotent.
  apply (ms_rows_of_keyed P _ _ Hrows).
  intros n Hn. apply (proj1 (sort_by_distance_In _ _)) in Hn.
  unfold discover_loop in Hloop. bind_ok Hloop. rename a into l.
  destruct (discover_loop_inv P l _ _ Hloop) as (added & Hout & _ & Hadded).
  simpl in Hout. subst added.
  destruct (Hadded _ Hn) as (station & dist & Hin & (Hid & _) & _).
  destruct r as [k | status body | status lim]; simpl in Hfetch;
    [ discriminate |
    | destruct (raise_for_status status); simpl in Hfetch;
      [ destruct lim | ]; discriminate ].
  do 2 bind_ok Hfetch. rename a0 into all'. bind_ok Hfetch.
  injection Hfetch as <-.
  destruct body as [v | ]; simpl in Hm1; [ | discriminate ].
  injection Hm1 as <-.
  exact (Hids status _ l station _ eq_refl Hm Hin Hid).
Qed.

(** C5. Discovery run twice in succession on the same answer of the feed,
    whose identifiers are strings, leaves the registry after the second run
    as it was after the first. *)
Theorem discovery_twice_same_registry :
  forall P E w,
    http_get E (S (gets w)) = http_get E (gets w) ->
    string_ids (http_get E (gets w)) ->
    let w1 := snd (discover_stations P E w) in
    let w2 := snd (discover_stations P E w1) in
    monitored_stations (db w2) = monitored_stations (db w1).
Proof.
  intros P E w Hsame Hids w1 w2. subst w2 w1.
  rewrite !discover_stations_eq, !discovery_outcome_world. simpl.
  rewrite Hsame, discovery_db_idempotent by exact Hids. reflexivity.
Qed.

(** *** One collection cycle *)

Lemma collect_stations_eq P E ids w :
  collect_stations P E ids w = collection_outcome P E ids w.
Proof.
  unfold collect_stations, collection_outcome.
  unfold mbind at 1, datetime_now_utc.
  unfold mbind at 1, get_london_now.
  unfold mbind at 1, try_except_RequestException, mbind at 1.
  rewrite fetch_all_stations_eq. simpl.
  destruct (fetch_result (http_get E (gets w))) as [all | e]; simpl.
  - unfold mbind, lift, sqlite3_connect, conn_commit, ret.
    destruct (build_station_map all) as [m | e]; simpl; [ | reflexivity ].
    destruct (for_each ids _ _); reflexivity.
  - destruct (is_RequestException e); reflexivity.
Qed.

Lemma collect_once_eq P E w :
  collect_once P E w
  = match registry_ids w with
    | [] =>
        match discover_stations P E (log CallCollect w) with
        | (Ok _, w1) =>
            match registry_ids w1 with
            | [] => (Ok "error", w1)
            | _ => collect_stations P E (selected_ids w1) w1
            end
        | (Raise e, w1) => (Raise e, w1)
        end
    | _ => collect_stations P E (selected_ids (log CallCollect w))
             (log CallCollect w)
    end.
Proof.
  unfold collect_once, mbind at 1, emit.
  unfold mbind at 1, get_monitored_station_ids at 1, mbind at 1,
    sqlite3_connect at 1, ret at 1.
  change (index_scan (monitored_stations (db (log CallCollect w))))
    with (selected_ids (log CallCollect w)).
  pose proof (selected_ids_nil (log CallCollect w)) as Hnil.
  change (registry_ids (log CallCollect w)) with (registry_ids w) in Hnil.
  destruct (registry_ids w) as [ | sid ids ].
  - rewrite (proj2 Hnil eq_refl). cbv beta iota.
    unfold mbind at 1.
    destruct (discover_stations P E (log CallCollect w)) as [[nearby | e] w1];
      [ | reflexivity ].
    unfold mbind, get_monitored_station_ids, mbind, sqlite3_connect, ret.
    change (index_scan (monitored_stations (db w1))) with (selected_ids w1).
    pose proof (selected_ids_nil w1) as Hnil1.
    destruct (registry_ids w1) as [ | sid ids ].
    + rewrite (proj2 Hnil1 eq_refl). reflexivity.
    + destruct (selected_ids w1) eqn:Hsel; [ | reflexivity ].
      destruct Hnil1 as (Hnil1 & _). discriminate (Hnil1 eq_refl).
  - destruct (selected_ids (log CallCollect w)) eqn:Hsel; [ | reflexivity ].
    destruct Hnil as (Hnil & _). discriminate (Hnil eq_refl).
Qed.

Lemma station_map_get_found m sid :
  filed_by_id m ->
  py_truthy (station_map_get m sid) = true ->
  exists k, key_is sid k = true /\
            py_getitem (station_map_get m sid) "id" = Ok k.
Proof.
  intros Hm Ht. unfold station_map_get in *.
  destruct (find (fun kv => key_is sid (fst kv)) m) as [[k s] | ] eqn:Hfind;
    [ | discriminate ].
  apply find_some in Hfind. destruct Hfind as (Hin & Hkey).
  exists k. split; [ exact Hkey | exact (Hm _ _ Hin) ].
Qed.

Lemma key_is_bind P sid k :
  key_is sid k = true ->
  exists v, sql_bind k = Ok v /\ affinity_text P v = sid.
Proof.
  destruct sid as [s | ], k; simpl; try discriminate.
  - intros H. apply String.eqb_eq in H. subst. eexists; split; reflexivity.
  - intros _. eexists; split; reflexivity.
Qed.

Section CycleLoop.

Variable P : platform.
Variable now_utc : string.
Variable m : station_map_t.
Hypothesis m_filed : filed_by_id m.

Lemma collect_station_inv sid conn c conn' c' :
  collect_station P now_utc m sid (conn, c) = Ok (conn', c') ->
  monitored_stations conn' = monitored_stations conn /\
  ((skipped m sid /\ conn' = conn /\ c' = c) \/
   (exists row,
      written now_utc m sid row /\
      bike_availability conn' = bike_availability conn ++ [row] /\
      c' = c + 1)).
Proof.
  unfold collect_station. intros H.
  destruct (py_truthy (station_map_get m sid)) eqn:Ht; simpl in H.
  2:{ injection H as <- <-. split; [ reflexivity | ]. left.
      split; [ left; exact Ht | auto ]. }
  destruct (station_map_get_found m sid m_filed Ht) as (k & Hkey & Hid).
  bind_ok H. rename a into ap. bind_ok H. rename a into props.
  assert (Hprops : station_props (station_map_get m sid) = Ok props).
  { unfold station_props. rewrite Hm. simpl. exact Hm0. }
  destruct (not_serviceable props) eqn:Hflag.
  { injection H as <- <-. split; [ reflexivity | ]. left.
    split; [ right; exists props; auto | auto ]. }
  rewrite Hid in H. simpl in H.
  repeat bind_ok H. injection H as <- <-.
  match goal with
  | Hx : execute_insert _ _ _ _ _ _ _ _ _ _ _ _ = Ok _ |- _ =>
      rename Hx into Hins
  end.
  unfold execute_insert in Hins. simpl in Hins.
  destruct (key_is_bind P sid k Hkey) as (v & Hv & Hsid).
  rewrite Hv in Hins. simpl in Hins.
  repeat bind_ok Hins.
  destruct (affinity_text P v) as [id | ] eqn:Haff; [ | discriminate ].
  injection Hins as <-. simpl. split; [ reflexivity | ]. right.
  eexists. split; [ | split; reflexivity ].
  unfold written; simpl. split; [ symmetry; exact Hsid | ].
  split; [ reflexivity | ]. exists props. auto.
Qed.

Lemma collect_loop_inv ids : forall conn c conn' c',
  for_each ids (collect_station P now_utc m) (conn, c) = Ok (conn', c') ->
  monitored_stations conn' = monitored_stations conn /\
  exists new,
    bike_availability conn' = bike_availability conn ++ new /\
    c' = c + Z.of_nat (List.length new) /\
    (forall row, In row new ->
       exists sid, In sid ids /\ written now_utc m sid row) /\
    (forall sid, In sid ids ->
       skipped m sid \/ exists row, In row new /\ written now_utc m sid row).
Proof.
  induction ids as [ | sid ids IH ]; simpl; intros conn c conn' c' H.
  - injection H as <- <-. split; [ reflexivity | ]. exists [].
    rewrite app_nil_r. simpl. repeat split; try lia; intros ? [].
  - bind_ok H. destruct a as [conn1 c1].
    destruct (collect_station_inv _ _ _ _ _ Hm) as (Hreg1 & Hstep).
    destruct (IH _ _ _ _ H) as (Hreg & new & Hnew & Hc & Hrows & Hids).
    split; [ congruence | ].
    destruct Hstep as [(Hskip & -> & ->) | (row & Hw & Hrow & ->)].
    + exists new. repeat split; auto.
      * intros r Hr. destruct (Hrows r Hr) as (s & ? & ?). exists s. auto.
      * intros s [<- | Hs]; [ left; exact Hskip | exact (Hids s Hs) ].
    + exists (row :: new). rewrite Hnew, Hrow, <- app_assoc.
      split; [ reflexivity | ].
      split; [ simpl List.length; lia | ]. split.
      * intros r [<- | Hr]; [ exists sid; auto | ].
        destruct (Hrows r Hr) as (s & ? & ?). exists s. auto.
      * intros s [<- | Hs].
        -- right. exists row. split; [ left; reflexivity | exact Hw ].
        -- destruct (Hids s Hs) as [? | (r & ? & ?)]; [ left; auto | ].
           right. exists r. split; [ right; auto | auto ].
Qed.

End CycleLoop.

(** *** The station map and the catalog *)

Lemma build_station_map_inv l : forall acc m,
  for_each l station_map_insert acc = Ok m ->
  m = rev (map (fun s => (id_of s, s)) l) ++ acc /\
  Forall (fun s => exists k, py_getitem s "id" = Ok k) l.
Proof.
  induction l as [ | s l IH ]; simpl; intros acc m H.
  - injection H as <-. split; [ reflexivity | constructor ].
  - bind_ok H. rename a into mid.
    unfold station_map_insert in Hm. bind_ok Hm. rename a into k.
    destruct (hashable k); [ | discriminate ]. injection Hm as <-.
    destruct (IH _ _ H) as (-> & Hall).
    split; [ | constructor; [ eauto | exact Hall ] ].
    rewrite <- app_assoc. simpl.
    replace (id_of s) with k by (unfold id_of; rewrite Hm0; reflexivity).
    reflexivity.
Qed.

Lemma find_filed sid l :
  Forall (fun s => exists k, py_getitem s "id" = Ok k) l ->
  find (fun kv => key_is sid (fst kv)) (map (fun s => (id_of s, s)) l)
  = option_map (fun s => (id_of s, s)) (find (has_id sid) l).
Proof.
  induction 1 as [ | s l (k & Hk) _ IH ]; simpl; [ reflexivity | ].
  unfold has_id at 1, id_of at 1. rewrite Hk.
  destruct (key_is sid k); simpl; [ | exact IH ].
  unfold id_of. rewrite Hk. reflexivity.
Qed.

Lemma station_map_get_catalog all l m sid :
  py_iter all = Ok l ->
  build_station_map all = Ok m ->
  filed_by_id m /\
  station_map_get m sid
  = match catalog_entry l sid with Some s => s | None => JNull end.
Proof.
  intros Hiter Hbuild. unfold build_station_map in Hbuild.
  rewrite Hiter in Hbuild. simpl in Hbuild.
  destruct (build_station_map_inv _ _ _ Hbuild) as (-> & Hall).
  rewrite app_nil_r. split.
  - intros k s Hin. rewrite <- in_rev in Hin. apply in_map_iff in Hin.
    destruct Hin as (s' & Heq & Hin). injection Heq as <- <-.
    rewrite Forall_forall in Hall. destruct (Hall _ Hin) as (k & Hk).
    unfold id_of. rewrite Hk. reflexivity.
  - unfold station_map_get, catalog_entry. rewrite <- map_rev.
    rewrite find_filed by (apply Forall_rev; exact Hall).
    destruct (find (has_id sid) (rev l)); reflexivity.
Qed.

Lemma catalog_entry_truthy l sid s :
  catalog_entry l sid = Some s -> py_truthy s = true.
Proof.
  unfold catalog_entry. intros H. apply find_some in H.
  destruct H as (_ & H). unfold has_id, py_getitem in H.
  destruct s; try discriminate. destruct kv; [ discriminate | reflexivity ].
Qed.

Lemma written_reading_of now all l m sid row :
  py_iter all = Ok l -> build_station_map all = Ok m ->
  written now m sid row -> reading_of now l sid row.
Proof.
  intros Hiter Hbuild (Hsid & Hts & props & Ht & Hp & Hf).
  destruct (station_map_get_catalog all l m sid Hiter Hbuild) as (_ & Hget).
  rewrite Hget in Ht, Hp.
  destruct (catalog_entry l sid) as [s | ] eqn:Hentry; [ | discriminate ].
  split; [ exact Hsid | ]. split; [ exact Hts | ]. exists s, props. auto.
Qed.

Lemma skipped_gap all l m sid :
  py_iter all = Ok l -> build_station_map all = Ok m ->
  skipped m sid -> gap l sid.
Proof.
  intros Hiter Hbuild Hskip.
  destruct (station_map_get_catalog all l m sid Hiter Hbuild) as (_ & Hget).
  unfold skipped in Hskip. rewrite Hget in Hskip. unfold gap.
  destruct (catalog_entry l sid) as [s | ] eqn:Hentry; [ | left; reflexivity ].
  destruct Hskip as [Ht | (props & Hp & Hf)].
  - rewrite (catalog_entry_truthy _ _ _ Hentry) in Ht. discriminate.
  - right. exists s, props. auto.
Qed.

(** A reading and a gap exclude each other. *)
Lemma reading_of_not_gap now l sid row :
  reading_of now l sid row -> gap l sid -> False.
Proof.
  intros (_ & _ & s & props & Hs & Hp & Hf) [Hnone | (s' & props' & Hs' & Hp' & Hf')].
  - congruence.
  - rewrite Hs in Hs'. injection Hs' as <-. congruence.
Qed.

(** *** What the feed client raises *)

Lemma fetch_result_failure r :
  feed_failure r <->
  exists e, fetch_result r = Raise e /\ is_RequestException e = true.
Proof.
  destruct r as [k | status body | status lim]; simpl.
  - split; [ intros _; eexists; split; reflexivity | trivial ].
  - unfold raise_for_status.
    destruct ((400 <=? status) && (status <? 600)) eqn:Hst; simpl.
    + split; [ intros _; eexists; split; reflexivity | ].
      intros _. left. apply andb_true_iff in Hst. lia.
    + destruct body as [v | ]; simpl.
      * split.
        -- intros [H | H]; [ | discriminate ].
           apply andb_false_iff in Hst. lia.
        -- intros (e & He & Hreq).
           destruct v; simpl in He; try discriminate;
             injection He as <-; discriminate.
      * split; [ intros _; eexists; split; reflexivity | auto ].
  - unfold raise_for_status.
    destruct ((400 <=? status) && (status <? 600)) eqn:Hst; simpl.
    + split; [ intros _; eexists; split; reflexivity | ].
      intros _. apply andb_true_iff in Hst. lia.
    + split.
      * intros H. apply andb_false_iff in Hst. lia.
      * intros (e & He & Hreq).
        destruct lim; simpl in He; injection He as <-; discriminate.
Qed.

(** A catalog comes only from a response whose status is no error status
    and whose body is JSON with a length. *)
Lemma fetch_result_returns r all :
  fetch_result r = Ok all ->
  exists status n,
    r = Response status (Some all) /\
    raise_for_status status = Ok tt /\
    py_len all = Ok n.
Proof.
  destruct r as [k | status body | status lim]; simpl; [ discriminate | | ];
    (destruct (raise_for_status status) as [[] | ] eqn:Hst; simpl;
     [ | discriminate ]).
  - destruct body as [v | ]; simpl; [ | discriminate ].
    destruct (py_len v) as [n | ] eqn:Hlen; simpl; [ | discriminate ].
    intros H. injection H as <-. eauto.
  - destruct lim; discriminate.
Qed.

(** *** What a call of Discovery leaves behind *)

Lemma discovery_db_readings P r d :
  bike_availability (discovery_db P r d) = bike_availability d.
Proof.
  unfold discovery_db. destruct (fetch_result r); [ | reflexivity ].
  destruct (discover_loop P a); [ | reflexivity ].
  destruct (ms_rows_of P _); reflexivity.
Qed.

Lemma discovery_frame P E w0 :
  let w1 := snd (discover_stations P E w0) in
  gets w1 = S (gets w0) /\
  ticks w1 = ticks w0 /\
  trace w1 = trace w0 ++ [CallDiscover; HttpGet] /\
  bike_availability (db w1) = bike_availability (db w0).
Proof.
  simpl. rewrite discover_stations_eq, discovery_outcome_world. simpl.
  rewrite discovery_db_readings, <- app_assoc. auto.
Qed.

(** *** What [collect_stations] leaves behind *)

Lemma collection_outcome_inv P E ids w r w' :
  collection_outcome P E ids w = (r, w') ->
  monitored_stations (db w') = monitored_stations (db w) /\
  gets w' = S (gets w) /\
  trace w' = trace w ++ [HttpGet] /\
  ((r = Ok "error" /\ feed_failure (http_get E (gets w)) /\ db w' = db w) \/
   (exists e, r = Raise e /\ ~ feed_failure (http_get E (gets w)) /\
              db w' = db w) \/
   (r = Ok "ok" /\
    exists status all l new,
      http_get E (gets w) = Response status (Some all) /\
      raise_for_status status = Ok tt /\
      py_iter all = Ok l /\
      bike_availability (db w') = bike_availability (db w) ++ new /\
      (forall row, In row new ->
         exists sid, In sid ids /\
                     reading_of (utc_now E (ticks w)) l sid row) /\
      (forall sid, In sid ids ->
         gap l sid \/
         exists row, In row new /\
                     reading_of (utc_now E (ticks w)) l sid row))).
Proof.
  unfold collection_outcome. intros H.
  destruct (fetch_result (http_get E (gets w))) as [all | e] eqn:Hfetch.
  - assert (Hnf : ~ feed_failure (http_get E (gets w))).
    { intros Hf. apply fetch_result_failure in Hf.
      destruct Hf as (e & He & _). congruence. }
    destruct (fetch_result_returns _ _ Hfetch) as (status & len & Hget & Hst & Hlen).
    destruct (build_station_map all) as [m | e] eqn:Hbuild.
    + assert (Hiter : exists l, py_iter all = Ok l).
      { unfold build_station_map in Hbuild. bind_ok Hbuild. eauto. }
      destruct Hiter as (l & Hiter).
      destruct (station_map_get_catalog all l m None Hiter Hbuild) as (Hfiled & _).
      destruct (for_each ids _ _) as [[conn c] | e] eqn:Hloop.
      * injection H as <- <-. simpl.
        destruct (collect_loop_inv P _ m Hfiled ids _ _ _ _ Hloop)
          as (Hreg & new & Hnew & _ & Hrows & Hids).
        repeat split; auto. right. right. split; [ reflexivity | ].
        exists status, all, l, new. repeat split; auto.
        -- intros row Hrow. destruct (Hrows row Hrow) as (sid & Hin & Hw).
           exists sid. split; [ exact Hin | ].
           exact (written_reading_of _ all l m sid row Hiter Hbuild Hw).
        -- intros sid Hin. destruct (Hids sid Hin) as [Hs | (row & Hrow & Hw)].
           ++ left. exact (skipped_gap all l m sid Hiter Hbuild Hs).
           ++ right. exists row. split; [ exact Hrow | ].
              exact (written_reading_of _ all l m sid row Hiter Hbuild Hw).
      * injection H as <- <-. simpl. repeat split; auto.
        right. left. exists e. auto.
    + injection H as <- <-. simpl. repeat split; auto.
      right. left. exists e. auto.
  - destruct (is_RequestException e) eqn:Hreq; injection H as <- <-; simpl;
      repeat split; auto.
    + left. repeat split; auto. apply fetch_result_failure. eauto.
    + right. left. exists e. repeat split; auto.
      intros Hf. apply fetch_result_failure in Hf.
      destruct Hf as (e' & He' & Hreq'). congruence.
Qed.

(** *** The two ways through [collect_once] *)

(** Either the cycle collects, from a world [w1] whose registry is not
    empty and which differs from the start by the record of the call and,
    when the registry was empty, by what Discovery did; or the registry was
    empty and Discovery raised or left it empty. *)
Lemma collect_once_inv P E w r w' :
  collect_once P E w = (r, w') ->
  (exists w1,
     collection_outcome P E (selected_ids w1) w1 = (r, w') /\
     registry_ids w1 <> [] /\
     gets w1 = collection_get w /\
     ticks w1 = ticks w /\
     bike_availability (db w1) = bike_availability (db w) /\
     (registry_ids w <> [] -> w1 = log CallCollect w) /\
     exists pre, trace w1 = trace w ++ CallCollect :: pre /\
                 (pre = [] \/ pre = [CallDiscover; HttpGet]))
  \/
  (registry_ids w = [] /\
   (exists e, discover_stations P E (log CallCollect w) = (Raise e, w') /\
              r = Raise e) /\
   bike_availability (db w') = bike_availability (db w) /\
   trace w' = trace w ++ [CallCollect; CallDiscover; HttpGet])
  \/
  (registry_ids w = [] /\
   (exists nearby, discover_stations P E (log CallCollect w) = (Ok nearby, w')) /\
   r = Ok "error" /\ registry_ids w' = [] /\
   bike_availability (db w') = bike_availability (db w) /\
   trace w' = trace w ++ [CallCollect; CallDiscover; HttpGet]).
Proof.
  rewrite collect_once_eq. unfold collection_get.
  destruct (registry_ids w) as [ | sid ids ] eqn:Hids.
  - pose proof (discovery_frame P E (log CallCollect w)) as Hframe.
    simpl in Hframe.
    destruct (discover_stations P E (log CallCollect w)) as [[nearby | e] w1]
      eqn:Hdisc; simpl in Hframe.
    + destruct Hframe as (Hgets & Hticks & Htrace & Hread).
      rewrite <- app_assoc in Htrace. simpl in Htrace.
      destruct (registry_ids w1) as [ | sid ids ] eqn:Hids1.
      * intros H. injection H as <- <-. right. right.
        split; [ reflexivity | ]. split; [ eauto | ]. auto.
      * rewrite collect_stations_eq. intros H. left. exists w1.
        rewrite Hids1. split; [ exact H | ].
        split; [ discriminate | ]. repeat split; auto.
        -- intros Hne. congruence.
        -- exists [CallDiscover; HttpGet]. auto.
    + intros H. injection H as <- <-. right. left.
      destruct Hframe as (Hgets & Hticks & Htrace & Hread).
      rewrite <- app_assoc in Htrace. simpl in Htrace.
      split; [ reflexivity | ]. split; [ eauto | auto ].
  - rewrite collect_stations_eq. intros H. left. exists (log CallCollect w).
    change (registry_ids (log CallCollect w)) with (registry_ids w).
    rewrite Hids. simpl.
    split; [ exact H | ]. split; [ discriminate | ].
    repeat split; auto. exists []. auto.
Qed.

(** The rows a cycle adds: each is the reading, stamped with the clock
    reading the cycle started with, of an identifier of the registry for
    which the catalog the cycle collected from has a serviceable station. *)
Lemma cycle_readings P E w :
  let w' := snd (collect_once P E w) in
  exists new,
    bike_availability (db w') = bike_availability (db w) ++ new /\
    forall row, In row new ->
      exists sid status all l,
        In sid (registry_ids w') /\
        http_get E (collection_get w) = Response status (Some all) /\
        raise_for_status status = Ok tt /\
        py_iter all = Ok l /\
        reading_of (utc_now E (ticks w)) l sid row.
Proof.
  simpl. destruct (collect_once P E w) as [r w'] eqn:Hrun. simpl.
  destruct (collect_once_inv P E w r w' Hrun)
    as [(w1 & Hout & _ & Hgets & Hticks & Hread & _)
       | [(_ & _ & Hread & _) | (_ & _ & _ & _ & Hread & _)]].
  - destruct (collection_outcome_inv P E _ w1 r w' Hout)
      as (Hreg & _ & _ & [(_ & _ & Hdb) | [(e & _ & _ & Hdb)
          | (_ & status & all & l & new & Hget & Hst & Hiter & Hnew & Hrows & _)]]).
    + exists []. rewrite app_nil_r, Hdb. split; [ exact Hread | intros ? [] ].
    + exists []. rewrite app_nil_r, Hdb. split; [ exact Hread | intros ? [] ].
    + exists new. rewrite Hnew, Hread. split; [ reflexivity | ].
      intros row Hrow. destruct (Hrows row Hrow) as (sid & Hin & Hreading).
      exists sid, status, all, l. rewrite <- Hgets, <- Hticks.
      apply selected_ids_In in Hin.
      unfold registry_ids in *. rewrite Hreg. auto.
  - exists []. rewrite app_nil_r. split; [ exact Hread | intros ? [] ].
  - exists []. rewrite app_nil_r. split; [ exact Hread | intros ? [] ].
Qed.

(** C2. The rows a collection cycle adds to [bike_availability] are each for
    an identifier that is in the registry when the cycle collects, for which
    the catalog fetched in that cycle has a station, and that station is not
    flagged uninstalled or locked; an identifier the catalog has no station
    for, or a flagged one, gets no row in that cycle. *)
Theorem readings_only_for_serviceable_monitored_stations :
  forall P E w,
    let w' := snd (collect_once P E w) in
    exists new,
      bike_availability (db w') = bike_availability (db w) ++ new /\
      (forall row, In row new ->
         In (Some (ba_station_id row)) (registry_ids w') /\
         exists status all l station props,
           http_get E (collection_get w) = Response status (Some all) /\
           py_iter all = Ok l /\
           catalog_entry l (Some (ba_station_id row)) = Some station /\
           station_props station = Ok props /\
           not_serviceable props = false) /\
      (forall status all l sid,
         http_get E (collection_get w) = Response status (Some all) ->
         py_iter all = Ok l ->
         gap l (Some sid) ->
         forall row, In row new -> ba_station_id row <> sid).
Proof.
  intros P E w. simpl.
  destruct (cycle_readings P E w) as (new & Hnew & Hrows). simpl in *.
  exists new. split; [ exact Hnew | ]. split.
  - intros row Hrow.
    destruct (Hrows row Hrow)
      as (sid & status & all & l & Hin & Hget & _ & Hiter & Hreading).
    destruct Hreading as (Hsid & _ & station & props & Hentry & Hp & Hf).
    subst sid. split; [ exact Hin | ].
    exists status, all, l, station, props. auto.
  - intros status all l sid Hget Hiter Hgap row Hrow Heq.
    destruct (Hrows row Hrow)
      as (sid' & status' & all' & l' & _ & Hget' & _ & Hiter' & Hreading).
    rewrite Hget in Hget'. injection Hget' as <- <-.
    rewrite Hiter in Hiter'. injection Hiter' as <-.
    pose proof Hreading as (Hsid & _). subst sid' sid.
    exact (reading_of_not_gap _ l _ row Hreading Hgap).
Qed.

(** C4. The rows a collection cycle adds all carry the same timestamp: the
    one clock reading taken when the cycle starts collecting. *)
Theorem readings_of_a_cycle_share_one_timestamp :
  forall P E w,
    let w' := snd (collect_once P E w) in
    exists new,
      bike_availability (db w') = bike_availability (db w) ++ new /\
      (forall row, In row new -> ba_timestamp row = utc_now E (ticks w)) /\
      (forall row1 row2, In row1 new -> In row2 new ->
         ba_timestamp row1 = ba_timestamp row2).
Proof.
  intros P E w. simpl.
  destruct (cycle_readings P E w) as (new & Hnew & Hrows). simpl in *.
  assert (Hts : forall row, In row new -> ba_timestamp row = utc_now E (ticks w)).
  { intros row Hrow.
    destruct (Hrows row Hrow) as (sid & status & all & l & _ & _ & _ & _ & Hr).
    destruct Hr as (_ & Hts & _). exact Hts. }
  exists new. split; [ exact Hnew | ]. split; [ exact Hts | ].
  intros row1 row2 H1 H2. rewrite (Hts _ H1), (Hts _ H2). reflexivity.
Qed.

(** *** When the feed fails *)

Lemma collection_outcome_on_failure P E ids w :
  feed_failure (http_get E (gets w)) ->
  collection_outcome P E ids w
  = (Ok "error", count_get (log HttpGet (tick (tick w)))).
Proof.
  intros Hf. apply fetch_result_failure in Hf. destruct Hf as (e & He & Hreq).
  unfold collection_outcome. rewrite He, Hreq. reflexivity.
Qed.


(** C3, as the code has it.  When the registry is not empty and the fetch of
    the catalog fails in the way the script prepares for (no response, a 4xx
    or 5xx status, a body that is not JSON: the fetch raises a
    RequestException), the cycle returns "error" without raising, the
    database is as before (no reading written, the registry untouched), and
    whatever the scheduler does next runs. *)
Theorem failed_fetch_writes_nothing_and_returns :
  forall P E w,
    registry_ids w <> [] ->
    feed_failure (http_get E (gets w)) ->
    exists w',
      collect_once P E w = (Ok "error", w') /\
      bike_availability (db w') = bike_availability (db w) /\
      monitored_stations (db w') = monitored_stations (db w) /\
      forall (A : Type) (next : M A),
        mbind (collect_once P E) (fun _ => next) w = next w'.
Proof.
  intros P E w Hreg Hfail.
  exists (count_get (log HttpGet (tick (tick (log CallCollect w))))).
  assert (Hrun : collect_once P E w
                 = (Ok "error",
                    count_get (log HttpGet (tick (tick (log CallCollect w)))))).
  { rewrite collect_once_eq.
    destruct (registry_ids w) as [ | sid ids ]; [ congruence | ].
    rewrite collect_stations_eq.
    apply collection_outcome_on_failure. exact Hfail. }
  split; [ exact Hrun | ]. split; [ reflexivity | ]. split; [ reflexivity | ].
  intros A next. unfold mbind. rewrite Hrun. reflexivity.
Qed.

(** C3 as stated fails.  With a registry that is not empty, a fetch can fail
    in ways the cycle does not report: a body that is JSON but has no
    length, here [null], makes the fetch raise a TypeError, and a body with
    an integer beyond the limit of the decoder makes it raise a ValueError;
    the cycle catches neither, so it raises and ends the scheduler.  And a
    response with the status 300, a failed call in the words of the
    specification, is no failure to the script: its body is taken as the
    catalog, the cycle writes a reading and reports "ok". *)
Lemma failed_fetch_not_always_reported :
  let w := world_with [ms_row_S "S1"] in
  let null_body := feed_always (Response 200 (Some JNull)) in
  let over_limit := feed_always (ResponseOverLimit 200 IntMaxStrDigits) in
  let redirected := feed_always (Response 300 (Some catalog_1)) in
  registry_ids w <> [] /\
  (fst (fetch_all_stations null_body w) = Raise TypeError /\
   fst (collect_once small_angle_platform null_body w) = Raise TypeError) /\
  (fst (fetch_all_stations over_limit w) = Raise ValueError /\
   fst (collect_once small_angle_platform over_limit w) = Raise ValueError) /\
  (transport_failure (Response 300 (Some catalog_1)) /\
   fst (collect_once small_angle_platform redirected w) = Ok "ok" /\
   map ba_station_id
     (bike_availability (db (snd (collect_once small_angle_platform redirected w))))
   = ["S1"]).
Proof.
  simpl. split; [ discriminate | ].
  split; [ split; reflexivity | ].
  split; [ split; reflexivity | ].
  split; [ left; lia | ].
  split; vm_compute; reflexivity.
Qed.

(** C6. A cycle started on an empty registry calls Discovery exactly once,
    and before the GET it collects from: what the cycle adds to the record of
    calls is the call of the collector, one call of Discovery with its GET,
    and then at most the GET of the collection.  When that Discovery returns
    and the registry is still empty, the cycle returns "error" and leaves
    the readings as they were. *)
Theorem empty_registry_triggers_one_discovery :
  forall P E w,
    registry_ids w = [] ->
    let r := fst (collect_once P E w) in
    let w' := snd (collect_once P E w) in
    (trace w' = trace w ++ [CallCollect; CallDiscover; HttpGet] \/
     trace w' = trace w ++ [CallCollect; CallDiscover; HttpGet; HttpGet]) /\
    (forall nearby w1,
       discover_stations P E (log CallCollect w) = (Ok nearby, w1) ->
       registry_ids w1 = [] ->
       r = Ok "error" /\ w' = w1 /\
       bike_availability (db w') = bike_availability (db w)).
Proof.
  intros P E w Hempty. simpl.
  rewrite collect_once_eq, Hempty.
  pose proof (discovery_frame P E (log CallCollect w)) as Hframe.
  destruct (discover_stations P E (log CallCollect w)) as [[nearby | e] w1]
    eqn:Hdisc; simpl in Hframe;
    destruct Hframe as (_ & _ & Htrace & Hread);
    rewrite <- app_assoc in Htrace; simpl in Htrace.
  - destruct (registry_ids w1) as [ | sid ids ] eqn:Hids1; simpl.
    + split; [ left; exact Htrace | ].
      intros nearby' w1' Heq _. injection Heq as <- <-. auto.
    + rewrite collect_stations_eq.
      destruct (collection_outcome P E (selected_ids w1) w1) as [r w'] eqn:Hout.
      destruct (collection_outcome_inv P E _ w1 r w' Hout)
        as (_ & _ & Htrace' & _).
      simpl. split.
      * right. rewrite Htrace', Htrace, <- app_assoc. reflexivity.
      * intros nearby' w1' Heq Hreg'. injection Heq as <- <-. congruence.
  - simpl. split; [ left; exact Htrace | ].
    intros nearby' w1' Heq. discriminate.
Qed.



(** *** The burst *)

Lemma collect_once_trace P E w :
  exists added,
    trace (snd (collect_once P E w)) = trace w ++ CallCollect :: added /\
    filter scheduler_event added = [].
Proof.
  destruct (collect_once P E w) as [r w'] eqn:Hrun. simpl.
  destruct (collect_once_inv P E w r w' Hrun)
    as [(w1 & Hout & _ & _ & _ & _ & _ & pre & Hpre & Hcase)
       | [(_ & _ & _ & Htrace) | (_ & _ & _ & _ & _ & Htrace)]].
  - destruct (collection_outcome_inv P E _ w1 r w' Hout) as (_ & _ & Htrace & _).
    exists (pre ++ [HttpGet]). rewrite Htrace, Hpre, <- app_assoc.
    split; [ reflexivity | ]. destruct Hcase as [-> | ->]; reflexivity.
  - exists [CallDiscover; HttpGet]. rewrite Htrace. split; reflexivity.
  - exists [CallDiscover; HttpGet]. rewrite Htrace. split; reflexivity.
Qed.

Lemma burst_schedule P E cycles l : forall w,
  fst (mfor l
         (fun i => mbind (collect_once P E)
                     (fun _ => if i <? cycles - 1 then time_sleep 60 else ret tt))
         w) = Ok tt ->
  exists added,
    trace (snd (mfor l
                  (fun i => mbind (collect_once P E)
                              (fun _ => if i <? cycles - 1 then time_sleep 60
                                        else ret tt))
                  w))
    = trace w ++ added /\
    filter scheduler_event added = schedule cycles l.
Proof.
  induction l as [ | i l IH ]; simpl; intros w Hok.
  - exists []. rewrite app_nil_r. split; reflexivity.
  - unfold mbind at 1 in Hok. unfold mbind at 1.
    unfold mbind at 1 in Hok. unfold mbind at 1.
    destruct (collect_once_trace P E w) as (added1 & Htrace1 & Hsched1).
    destruct (collect_once P E w) as [[s | e] w1]; simpl in *;
      [ | discriminate ].
    destruct (i <? cycles - 1).
    + unfold time_sleep, emit in *.
      destruct (IH _ Hok) as (added & Htrace & Hsched).
      exists (CallCollect :: added1 ++ Sleep 60 :: added).
      rewrite Htrace. simpl trace. rewrite Htrace1, <- !app_assoc. simpl.
      split; [ reflexivity | ].
      rewrite filter_app, Hsched1. simpl. rewrite Hsched. reflexivity.
    + unfold ret at 1 in Hok. unfold ret at 1.
      destruct (IH _ Hok) as (added & Htrace & Hsched).
      exists (CallCollect :: added1 ++ added).
      rewrite Htrace, Htrace1, <- !app_assoc. simpl.
      split; [ reflexivity | ].
      rewrite filter_app, Hsched1, Hsched. reflexivity.
Qed.

(** C8. A burst of 5 in which every cycle returns makes exactly five calls
    of the collector and four sleeps of 60 seconds, one between each two
    consecutive cycles and none after the fifth. *)
Theorem burst_of_five_has_four_sleeps :
  forall P E w,
    fst (run_burst P E 5 w) = Ok tt ->
    exists added,
      trace (snd (run_burst P E 5 w)) = trace w ++ added /\
      filter scheduler_event added
      = [CallCollect; Sleep 60; CallCollect; Sleep 60; CallCollect; Sleep 60;
         CallCollect; Sleep 60; CallCollect].
Proof.
  intros P E w Hok. unfold run_burst in *.
  destruct (burst_schedule P E 5 (py_range 5) w Hok) as (added & Htrace & Hsched).
  exists added. split; [ exact Htrace | exact Hsched ].
Qed.

(** *** Property bags *)

Lemma dict_get_set {V} (d : list (string * V)) k v k' :
  dict_get (dict_set d k v) k'
  = if String.eqb k' k then Some v else dict_get d k'.
Proof.
  induction d as [ | [k0 v0] d IH ]; simpl; [ reflexivity | ].
  destruct (String.eqb k k0) eqn:Hk; simpl.
  - apply String.eqb_eq in Hk. subst k0.
    destruct (String.eqb k' k); reflexivity.
  - rewrite IH. destruct (String.eqb k' k0) eqn:Hk0; [ | reflexivity ].
    apply String.eqb_eq in Hk0. subst k0.
    rewrite String.eqb_sym, Hk. reflexivity.
Qed.

Lemma recognized_inv key k :
  recognized key = Some k -> key = JStr k /\ In k recognized_keys.
Proof.
  unfold recognized. destruct key; try discriminate.
  destruct (existsb (String.eqb s) recognized_keys) eqn:Hex; [ | discriminate ].
  intros H. injection H as <-. split; [ reflexivity | ].
  apply existsb_exists in Hex. destruct Hex as (x & Hin & Heq).
  apply String.eqb_eq in Heq. subst x. exact Hin.
Qed.

Lemma recognized_key k :
  In k recognized_keys -> recognized (JStr k) = Some k.
Proof.
  intros Hin. unfold recognized.
  replace (existsb (String.eqb k) recognized_keys) with true; [ reflexivity | ].
  symmetry. apply existsb_exists. exists k.
  split; [ exact Hin | apply String.eqb_refl ].
Qed.

(** What the parsed bag holds for a recognized key is what the last entry
    of the bag for that key says. *)
Lemma parse_loop_get ps : forall acc props k,
  for_each ps parse_property acc = Ok props ->
  In k recognized_keys ->
  dict_get props k
  = match bag_value ps k with
    | Some v => Some v
    | None => dict_get acc k
    end.
Proof.
  induction ps as [ | p ps IH ]; simpl; intros acc props k H Hk.
  - injection H as <-. reflexivity.
  - bind_ok H. rename a into mid. rewrite (IH _ _ _ H Hk).
    destruct (bag_value ps k); [ reflexivity | ].
    unfold parse_property in Hm. bind_ok Hm. rename a into key.
    bind_ok Hm. rename a into val.
    unfold entry_for, entry_value. rewrite Hm0, Hm1.
    destruct (recognized key) as [k0 | ] eqn:Hrec.
    + injection Hm as <-. destruct (recognized_inv _ _ Hrec) as (-> & _).
      rewrite dict_get_set, (String.eqb_sym k k0).
      destruct (String.eqb k0 k); reflexivity.
    + injection Hm as <-. destruct key; try reflexivity.
      destruct (String.eqb s k) eqn:Heq; [ | reflexivity ].
      apply String.eqb_eq in Heq. subst s.
      rewrite (recognized_key k Hk) in Hrec. discriminate.
Qed.

Lemma station_props_get station bag ps props k :
  py_get station "additionalProperties" (JArr []) = Ok bag ->
  py_iter bag = Ok ps ->
  station_props station = Ok props ->
  In k recognized_keys ->
  dict_get props k = bag_value ps k.
Proof.
  intros Hbag Hps Hprops Hk. unfold station_props in Hprops.
  rewrite Hbag in Hprops. simpl in Hprops.
  unfold parse_properties in Hprops. rewrite Hps in Hprops. simpl in Hprops.
  rewrite (parse_loop_get _ _ _ _ Hprops Hk).
  destruct (bag_value ps k); reflexivity.
Qed.

Lemma py_eq_str_iff x lit :
  py_eq_str x lit = true <-> x = Some (JStr lit).
Proof.
  unfold py_eq_str. destruct x as [[] | ]; split; try discriminate.
  - intros H. apply String.eqb_eq in H. subst. reflexivity.
  - intros H. injection H as ->. apply String.eqb_refl.
Qed.

Lemma not_serviceable_iff props :
  not_serviceable props = true <->
  dict_get props "Installed" = Some (JStr "false") \/
  dict_get props "Locked" = Some (JStr "true").
Proof.
  unfold not_serviceable. rewrite orb_true_iff, !py_eq_str_iff. reflexivity.
Qed.

(** A cycle that returns "ok" collected: for every identifier of the
    registry the catalog left a gap or the cycle added its reading. *)
Lemma completed_cycle P E w w' :
  collect_once P E w = (Ok "ok", w') ->
  exists status all l new,
    http_get E (collection_get w) = Response status (Some all) /\
    py_iter all = Ok l /\
    bike_availability (db w') = bike_availability (db w) ++ new /\
    (forall row, In row new ->
       exists sid, reading_of (utc_now E (ticks w)) l sid row) /\
    (forall sid, In sid (registry_ids w') ->
       gap l sid \/
       exists row, In row new /\ reading_of (utc_now E (ticks w)) l sid row).
Proof.
  intros Hrun.
  destruct (collect_once_inv P E w _ w' Hrun)
    as [(w1 & Hout & _ & Hgets & Hticks & Hread & _)
       | [(_ & (e & _ & He) & _) | (_ & _ & He & _)]];
    [ | discriminate | discriminate ].
  destruct (collection_outcome_inv P E _ w1 _ w' Hout)
    as (Hreg & _ & _ & [(He & _) | [(e & He & _)
        | (_ & status & all & l & new & Hget & _ & Hiter & Hnew & Hrows & Hids)]]);
    [ discriminate | discriminate | ].
  exists status, all, l, new. rewrite <- Hgets, <- Hticks, <- Hread.
  repeat split; auto.
  - intros row Hrow. destruct (Hrows row Hrow) as (sid & _ & Hr). eauto.
  - intros sid Hin. apply Hids, selected_ids_In. unfold registry_ids in *.
    rewrite <- Hreg. exact Hin.
Qed.

(** C9. In a cycle that completes, a monitored station that the catalog has
    gets a reading unless its property bag says, for the key "Installed",
    exactly the string "false", or for the key "Locked" exactly the string
    "true": a bag without these keys, or with any other value for them, does
    not make the collector skip the station. *)
Theorem skip_only_on_exact_flag_strings :
  forall P E w status all l sid station bag ps,
    fst (collect_once P E w) = Ok "ok" ->
    http_get E (collection_get w) = Response status (Some all) ->
    py_iter all = Ok l ->
    In (Some sid) (registry_ids (snd (collect_once P E w))) ->
    catalog_entry l (Some sid) = Some station ->
    py_get station "additionalProperties" (JArr []) = Ok bag ->
    py_iter bag = Ok ps ->
    exists new,
      bike_availability (db (snd (collect_once P E w)))
      = bike_availability (db w) ++ new /\
      ((exists row, In row new /\ ba_station_id row = sid)
       <-> ~ (bag_value ps "Installed" = Some (JStr "false") \/
              bag_value ps "Locked" = Some (JStr "true"))).
Proof.
  intros P E w status all l sid station bag ps Hok Hget Hiter Hin Hentry Hbag Hps.
  destruct (collect_once P E w) as [r w'] eqn:Hrun. simpl in *. subst r.
  destruct (completed_cycle P E w w' Hrun)
    as (status' & all' & l' & new & Hget' & Hiter' & Hnew & Hrows & Hids).
  rewrite Hget in Hget'. injection Hget' as <- <-.
  rewrite Hiter in Hiter'. injection Hiter' as <-.
  exists new. split; [ exact Hnew | ].
  assert (Hflags : forall props,
             station_props station = Ok props ->
             (not_serviceable props = true <->
              bag_value ps "Installed" = Some (JStr "false") \/
              bag_value ps "Locked" = Some (JStr "true"))).
  { intros props Hp. rewrite not_serviceable_iff.
    rewrite (station_props_get station bag ps props "Installed" Hbag Hps Hp)
      by (simpl; tauto).
    rewrite (station_props_get station bag ps props "Locked" Hbag Hps Hp)
      by (simpl; tauto).
    reflexivity. }
  destruct (Hids _ Hin) as [Hgap | (row & Hrow & Hr)].
  - split.
    + intros (row & Hrow & Hid). exfalso.
      destruct (Hrows row Hrow) as (sid' & Hr).
      pose proof Hr as (Hsid & _). subst sid' sid.
      exact (reading_of_not_gap _ l _ row Hr Hgap).
    + intros Hno. exfalso. apply Hno.
      destruct Hgap as [Hnone | (s & props & Hs & Hp & Hf)]; [ congruence | ].
      rewrite Hentry in Hs. injection Hs as <-.
      apply (Hflags props Hp). exact Hf.
  - split.
    + intros _ Hflag.
      destruct Hr as (_ & _ & s & props & Hs & Hp & Hf).
      rewrite Hentry in Hs. injection Hs as <-.
      apply (Hflags props Hp) in Hflag. congruence.
    + intros _. exists row. split; [ exact Hrow | ].
      destruct Hr as (Hsid & _). injection Hsid as ->. reflexivity.
Qed.

(** *** A count that is not a number *)

Lemma for_each_raises {A S} (body : A -> S -> res S) (x : A) (l : list A) :
  In x l ->
  (forall s, exists e, body x s = Raise e) ->
  forall s, exists e, for_each l body s = Raise e.
Proof.
  induction l as [ | y l IH ]; simpl; intros Hin Hx s; [ contradiction | ].
  destruct (body y s) as [s' | e] eqn:Hy; simpl; [ | eauto ].
  destruct Hin as [-> | Hin].
  - destruct (Hx s) as (e & He). congruence.
  - apply IH; assumption.
Qed.

Lemma collect_station_raises P now m sid station props k v e0 st :
  station_map_get m sid = station ->
  py_truthy station = true ->
  station_props station = Ok props ->
  not_serviceable props = false ->
  In k numeric_keys ->
  dict_get props k = Some v ->
  py_int P v = Raise e0 ->
  exists e, collect_station P now m sid st = Raise e.
Proof.
  intros Hget Ht Hp Hf Hk Hv Hbad.
  assert (Hint : py_int P (props_get props k (JInt 0)) = Raise e0).
  { unfold props_get. rewrite Hv. exact Hbad. }
  unfold collect_station. destruct st as [conn c]. rewrite Hget, Ht. simpl.
  unfold station_props in Hp. bind_ok Hp. simpl. rewrite Hp. simpl. rewrite Hf.
  simpl in Hk.
  destruct Hk as [<- | [<- | [<- | [<- | [<- | []]]]]];
    repeat match goal with
      | |- exists e, rbind ?c _ = Raise e =>
          let Hx := fresh "Hx" in
          destruct c eqn:Hx; simpl; [ try congruence | eexists; reflexivity ]
      end.
Qed.

(** C10. A count that is missing from the property bag is recorded as 0; a
    count that is there with a value [int] rejects is not.  When the catalog
    of a cycle has, for a monitored identifier, a serviceable station with
    such a value under one of the five numeric keys, the cycle raises
    instead of returning "ok" or "error", and the table of readings is as it
    was before the cycle: nothing the cycle inserted is committed. *)
Theorem unparsable_count_aborts_the_cycle :
  forall P E w status all l sid station props k v e0,
    http_get E (collection_get w) = Response status (Some all) ->
    raise_for_status status = Ok tt ->
    py_iter all = Ok l ->
    In (Some sid) (registry_ids (snd (collect_once P E w))) ->
    catalog_entry l (Some sid) = Some station ->
    station_props station = Ok props ->
    not_serviceable props = false ->
    In k numeric_keys ->
    dict_get props k = Some v ->
    py_int P v = Raise e0 ->
    (forall props' k',
       dict_get props' k' = None ->
       py_int P (props_get props' k' (JInt 0)) = Ok 0) /\
    (exists e, fst (collect_once P E w) = Raise e) /\
    bike_availability (db (snd (collect_once P E w)))
    = bike_availability (db w).
Proof.
  intros P E w status all l sid station props k v e0
    Hget Hst Hiter Hin Hentry Hp Hf Hk Hv Hbad.
  split.
  { intros props' k' Hnone. unfold props_get. rewrite Hnone. reflexivity. }
  destruct (collect_once P E w) as [r w'] eqn:Hrun. simpl in *.
  destruct (collect_once_inv P E w r w' Hrun)
    as [(w1 & Hout & _ & Hgets & _ & Hread & _)
       | [(_ & (e & _ & ->) & Hread & _) | (_ & _ & _ & Hempty & _)]].
  - destruct (collection_outcome_inv P E _ w1 r w' Hout) as (Hreg & _).
    assert (Hin1 : In (Some sid) (selected_ids w1)).
    { apply selected_ids_In. unfold registry_ids in *.
      rewrite <- Hreg. exact Hin. }
    unfold collection_outcome in Hout. rewrite Hgets, Hget in Hout.
    unfold fetch_result in Hout. rewrite Hst in Hout. simpl in Hout.
    assert (Hlen : exists n, py_len all = Ok n).
    { destruct all; simpl in Hiter; try discriminate; simpl; eauto. }
    destruct Hlen as (n & Hlen). rewrite Hlen in Hout. simpl in Hout.
    destruct (build_station_map all) as [m | e] eqn:Hbuild.
    + destruct (station_map_get_catalog all l m (Some sid) Hiter Hbuild)
        as (_ & Hmget).
      rewrite Hentry in Hmget.
      destruct (for_each_raises
                  (collect_station P (utc_now E (ticks w1)) m)
                  (Some sid) (selected_ids w1) Hin1
                  (fun st => collect_station_raises P _ m (Some sid) station
                               props k v e0 st Hmget
                               (catalog_entry_truthy _ _ _ Hentry)
                               Hp Hf Hk Hv Hbad)
                  (db w1, 0)) as (e & He).
      rewrite He in Hout. injection Hout as <- <-.
      split; [ eauto | exact Hread ].
    + injection Hout as <- <-. split; [ eauto | exact Hread ].
  - split; [ eauto | exact Hread ].
  - rewrite Hempty in Hin. contradiction.
Qed.

(** ** The theorems at work *)

(** Of the catalog [catalog_1], the station S1, some 240 m from the
    reference point, has its entry in what Discovery returns. *)
Lemma discovery_keeps_exactly_the_stations_in_radius_witness :
  exists dist,
    station_distance small_angle_platform station_S1 = Ok dist /\
    ((exists n,
        In n (match fst (discover_stations small_angle_platform feed_1
                           (world_with []))
              with Ok result => result | Raise _ => [] end) /\
        kept_from station_S1 n)
     <-> PrimFloat.leb dist 800%float = true).
Proof.
  apply (discovery_keeps_exactly_the_stations_in_radius
           small_angle_platform feed_1 (world_with []) 200 catalog_1
           [station_S1; station_S2; station_S3] _
           (snd (discover_stations small_angle_platform feed_1 (world_with [])))).
  - reflexivity.
  - reflexivity.
  - reflexivity.
  - vm_compute. reflexivity.
  - simpl. tauto.
Defined.

Lemma failed_fetch_writes_nothing_and_returns_witness :
  registry_ids (world_with [ms_row_S "S1"]) <> [] /\
  feed_failure (NoResponse Timeout) /\
  exists w',
    collect_once small_angle_platform (feed_always (NoResponse Timeout))
      (world_with [ms_row_S "S1"]) = (Ok "error", w') /\
    bike_availability (db w') = [] /\
    monitored_stations (db w') = [ms_row_S "S1"] /\
    forall (A : Type) (next : M A),
      mbind (collect_once small_angle_platform (feed_always (NoResponse Timeout)))
        (fun _ => next) (world_with [ms_row_S "S1"]) = next w'.
Proof.
  split; [ discriminate | ]. split; [ exact I | ].
  apply (failed_fetch_writes_nothing_and_returns small_angle_platform
           (feed_always (NoResponse Timeout)) (world_with [ms_row_S "S1"])).
  - discriminate.
  - exact I.
Defined.

Lemma catalog_1_string_ids : string_ids (Response 200 (Some catalog_1)).
Proof.
  intros status all l st k Heq Hiter Hin Hid.
  injection Heq as <- <-. simpl in Hiter. injection Hiter as <-.
  simpl in Hin. destruct Hin as [<- | [<- | [<- | []]]];
    vm_compute in Hid; injection Hid as <-; eexists; reflexivity.
Defined.

Lemma discovery_twice_same_registry_witness :
  let w1 := snd (discover_stations small_angle_platform feed_1 (world_with [])) in
  let w2 := snd (discover_stations small_angle_platform feed_1 w1) in
  monitored_stations (db w1) <> [] /\
  monitored_stations (db w2) = monitored_stations (db w1).
Proof.
  split.
  - vm_compute. discriminate.
  - apply (discovery_twice_same_registry small_angle_platform feed_1
             (world_with [])).
    + reflexivity.
    + exact catalog_1_string_ids.
Defined.

Lemma empty_registry_triggers_one_discovery_witness :
  let E := feed_always (NoResponse Timeout) in
  let r := fst (collect_once small_angle_platform E (world_with [])) in
  let w' := snd (collect_once small_angle_platform E (world_with [])) in
  (trace w' = [] ++ [CallCollect; CallDiscover; HttpGet] \/
   trace w' = [] ++ [CallCollect; CallDiscover; HttpGet; HttpGet]) /\
  (forall nearby w1,
     discover_stations small_angle_platform E (log CallCollect (world_with []))
     = (Ok nearby, w1) ->
     registry_ids w1 = [] ->
     r = Ok "error" /\ w' = w1 /\ bike_availability (db w') = []).
Proof.
  apply (empty_registry_triggers_one_discovery small_angle_platform
           (feed_always (NoResponse Timeout)) (world_with [])).
  reflexivity.
Defined.


Lemma burst_of_five_has_four_sleeps_witness :
  let w := world_with [ms_row_S "S1"] in
  fst (run_burst small_angle_platform feed_1 5 w) = Ok tt /\
  exists added,
    trace (snd (run_burst small_angle_platform feed_1 5 w)) = [] ++ added /\
    filter scheduler_event added
    = [CallCollect; Sleep 60; CallCollect; Sleep 60; CallCollect; Sleep 60;
       CallCollect; Sleep 60; CallCollect].
Proof.
  split; [ vm_compute; reflexivity | ].
  apply (burst_of_five_has_four_sleeps small_angle_platform feed_1
           (world_with [ms_row_S "S1"])).
  vm_compute. reflexivity.
Defined.

(** The station S1 of [catalog_1] says Installed "true" and Locked "false":
    it gets its reading. *)
Lemma skip_only_on_exact_flag_strings_witness :
  let w := world_with [ms_row_S "S1"; ms_row_S "S3"] in
  exists new,
    bike_availability (db (snd (collect_once small_angle_platform feed_1 w)))
    = [] ++ new /\
    ((exists row, In row new /\ ba_station_id row = "S1")
     <-> ~ (Some (JStr "true") = Some (JStr "false") \/
            Some (JStr "false") = Some (JStr "true"))).
Proof.
  apply (skip_only_on_exact_flag_strings small_angle_platform feed_1
           (world_with [ms_row_S "S1"; ms_row_S "S3"]) 200 catalog_1
           [station_S1; station_S2; station_S3] "S1" station_S1
           (JArr [property "NbBikes" "4"; property "NbStandardBikes" "3";
                  property "NbEBikes" "1"; property "NbEmptyDocks" "4";
                  property "NbDocks" "8"; property "Installed" "true";
                  property "Locked" "false"])
           [property "NbBikes" "4"; property "NbStandardBikes" "3";
            property "NbEBikes" "1"; property "NbEmptyDocks" "4";
            property "NbDocks" "8"; property "Installed" "true";
            property "Locked" "false"]).
  - vm_compute. reflexivity.
  - reflexivity.
  - reflexivity.
  - vm_compute. left. reflexivity.
  - vm_compute. reflexivity.
  - reflexivity.
  - reflexivity.
Defined.

(** The station S4 is monitored, in the catalog and serviceable, and its
    "NbBikes" is "n/a": the cycle raises and the reading of S1, inserted
    before, is not in the table. *)
Lemma unparsable_count_aborts_the_cycle_witness :
  let w := world_with [ms_row_S "S1"; ms_row_S "S4"] in
  py_int small_angle_platform (JStr "n/a") = Raise ValueError /\
  (forall props' k',
     dict_get props' k' = None ->
     py_int small_angle_platform (props_get props' k' (JInt 0)) = Ok 0) /\
  (exists e, fst (collect_once small_angle_platform feed_odd w) = Raise e) /\
  bike_availability (db (snd (collect_once small_angle_platform feed_odd w)))
  = [].
Proof.
  split; [ reflexivity | ].
  apply (unparsable_count_aborts_the_cycle small_angle_platform feed_odd
           (world_with [ms_row_S "S1"; ms_row_S "S4"]) 200
           (JArr [station_S1; station_S4]) [station_S1; station_S4]
           "S4" station_S4 [("NbBikes", JStr "n/a")] "NbBikes"
           (JStr "n/a") ValueError).
  - reflexivity.
  - reflexivity.
  - reflexivity.
  - vm_compute. right. left. reflexivity.
  - vm_compute. reflexivity.
  - reflexivity.
  - reflexivity.
  - simpl. tauto.
  - reflexivity.
  - reflexivity.
Defined.

(** ** Scenarios *)

(** The registry holds S1 and the locked S3, the catalog has both and a
    station far away: the cycle reports "ok" and writes the one reading of
    S1, with the counts of the feed. *)
Example cycle_on_catalog_1 :
  collect_once small_angle_platform feed_1
    (world_with [ms_row_S "S1"; ms_row_S "S3"])
  = (Ok "ok",
     {| db := {| monitored_stations := [ms_row_S "S1"; ms_row_S "S3"];
                 bike_availability :=
                   [{| ba_timestamp := "0";
                       ba_station_id := "S1";
                       ba_station_name := Some "Queen's Gate";
                       ba_available_bikes := 4;
                       ba_standard_bikes := 3;
                       ba_ebikes := 1;
                       ba_empty_docks := 4;
                       ba_total_docks := 8;
                       ba_latitude := SReal 51.5;
                       ba_longitude := SReal (-0.171875) |}] |};
        gets := 1; ticks := 2; trace := [CallCollect; HttpGet] |}).
Proof. vm_compute. reflexivity. Qed.

(** The catalog omits the one monitored station: the cycle reports "ok" and
    writes nothing. *)
Example cycle_with_a_gap :
  let run := collect_once small_angle_platform
               (feed_always (Response 200 (Some (JArr [station_S2]))))
               (world_with [ms_row_S "S1"]) in
  fst run = Ok "ok" /\ bike_availability (db (snd run)) = [].
Proof. vm_compute. split; reflexivity. Qed.

(** On an empty registry the cycle discovers first, then collects from a
    second GET. *)
Example cycle_on_an_empty_registry :
  let run := collect_once small_angle_platform feed_1 (world_with []) in
  fst run = Ok "ok" /\
  registry_ids (snd run) = [Some "S1"; Some "S3"] /\
  map ba_station_id (bike_availability (db (snd run))) = ["S1"] /\
  trace (snd run) = [CallCollect; CallDiscover; HttpGet; HttpGet].
Proof. vm_compute. repeat split; reflexivity. Qed.

(** Why the identifiers have to be strings for Discovery to be idempotent: a
    null key conflicts with no row, so each run adds the station again. *)
Example null_identifier_is_upserted_anew :
  let E := feed_always (Response 200 (Some (JArr [station_anonymous]))) in
  let w1 := snd (discover_stations small_angle_platform E (world_with [])) in
  let w2 := snd (discover_stations small_angle_platform E w1) in
  registry_ids w1 = [None] /\ registry_ids w2 = [None; None].
Proof. vm_compute. split; reflexivity. Qed.

(** The numbers of the model on a few inputs. *)
Example round_ties_to_even :
  py_round 2.5 = Ok 2 /\ py_round 3.5 = Ok 4 /\ py_round (-2.5) = Ok (-2) /\
  py_round 799.5 = Ok 800 /\ py_round 0.25 = Ok 0 /\
  py_round nan = Raise ValueError /\ py_round infinity = Raise OverflowError.
Proof. vm_compute. repeat split; reflexivity. Qed.

Example int_truncates_toward_zero :
  int_of_float 2.75 = Ok 2 /\ int_of_float (-2.75) = Ok (-2) /\
  int_of_float nan = Raise ValueError /\
  py_float (JInt (2 ^ 1024)) = Raise OverflowError /\
  py_float (JInt (2 ^ 53 + 1)) = Ok 9007199254740992%float.
Proof. vm_compute. repeat split; reflexivity. Qed.

Example integer_literals :
  map ascii_int_of_str ["12"; " 12 "; "-3"; "+4"; "1_000"; "1__0"; "3.5"; ""; "n/a"]
  = [Some 12; Some 12; Some (-3); Some 4; Some 1000; None; None; None; None].
Proof. vm_compute. reflexivity. Qed.

(** A form feed counts as a blank, a unit separator does not. *)
Example blanks_of_int :
  ascii_int_of_str (String (ascii_of_nat 12) "12") = Some 12 /\
  ascii_int_of_str (String (ascii_of_nat 31) "12") = None.
Proof. vm_compute. split; reflexivity. Qed.

(** Subtraction looks at the types before it converts: an int too large
    for a double overflows against a float, and is a type error against a
    string. *)
Example subtraction_checks_types_first :
  py_sub (JInt (2 ^ 1024)) (JFloat 1) = Raise OverflowError /\
  py_sub (JInt (2 ^ 1024)) (JStr "1") = Raise TypeError /\
  py_sub (JInt 3) (JBool true) = Ok (JInt 2).
Proof. vm_compute. repeat split; reflexivity. Qed.

(** The registry got S3, then S2, then S1: the collector reads the
    identifiers in the order of the key, and writes the readings of the two
    serviceable stations in that order. *)
Example registry_is_read_in_key_order :
  let w := world_with [ms_row_S "S3"; ms_row_S "S2"; ms_row_S "S1"] in
  let run := collect_once small_angle_platform feed_1 w in
  registry_ids w = [Some "S3"; Some "S2"; Some "S1"] /\
  fst (get_monitored_station_ids w) = Ok [Some "S1"; Some "S2"; Some "S3"] /\
  fst run = Ok "ok" /\
  map ba_station_id (bike_availability (db (snd run))) = ["S1"; "S2"].
Proof. vm_compute. repeat split; reflexivity. Qed.

(** NULL keys come first, and a key that is a prefix of another comes before
    it. *)
Example null_keys_come_first :
  index_scan
    [ms_row_S "b"; {| ms_station_id := None; ms_station_name := None;
                      ms_latitude := SNull; ms_longitude := SNull;
                      ms_distance_m := SNull |};
     ms_row_S "ab"; ms_row_S "a"; ms_row_S "B"]
  = [None; Some "B"; Some "a"; Some "ab"; Some "b"].
Proof. vm_compute. reflexivity. Qed.

(** The reference point is at distance 0 from itself. *)
Example distance_to_the_reference_point :
  haversine small_angle_platform IMPERIAL_LAT IMPERIAL_LON
    IMPERIAL_LAT IMPERIAL_LON = Ok 0%float.
Proof. vm_compute. reflexivity. Qed.

(** What Discovery makes of [catalog_1]: the two stations within the radius,
    nearest first, and not the one some kilometres away. *)
Example discovery_on_catalog_1 :
  let run := discover_stations small_angle_platform feed_1 (world_with []) in
  option_map (map (fun n => (nb_station_id n, nb_distance_m n)))
    (match fst run with Ok l => Some l | Raise _ => None end)
  = Some [(JStr "S1", 241); (JStr "S3", 344)] /\
  registry_ids (snd run) = [Some "S1"; Some "S3"].
Proof. vm_compute. split; reflexivity. Qed.

(** ** Further properties of the script *)

(** *** [parse_properties] *)

Lemma parse_property_object p props :
  is_object p = true -> exists props', parse_property p props = Ok props'.
Proof.
  destruct p; try discriminate. intros _. unfold parse_property. simpl.
  destruct (recognized _); eauto.
Qed.

Lemma parse_property_not_object p props :
  is_object p = false -> parse_property p props = Raise AttributeError.
Proof. destruct p; try discriminate; reflexivity. Qed.

Lemma parse_loop_other_keys ps : forall acc props k,
  for_each ps parse_property acc = Ok props ->
  existsb (String.eqb k) recognized_keys = false ->
  dict_get props k = dict_get acc k.
Proof.
  induction ps as [ | p ps IH ]; intros acc props k H Hk; simpl in H.
  - injection H as <-. reflexivity.
  - bind_ok H. rename a into mid. rewrite (IH _ _ _ H Hk).
    unfold parse_property in Hm. do 2 bind_ok Hm.
    destruct (recognized a) as [k0 | ] eqn:Hrec; injection Hm as <-;
      [ | reflexivity ].
    destruct (recognized_inv _ _ Hrec) as (_ & Hin).
    rewrite dict_get_set.
    destruct (String.eqb k k0) eqn:Heq; [ | reflexivity ].
    apply String.eqb_eq in Heq. subst k0.
    assert (Hex : existsb (String.eqb k) recognized_keys = true).
    { apply existsb_exists. exists k. split; [ exact Hin | apply String.eqb_refl ]. }
    congruence.
Qed.

(** X1. What [parse_properties] returns holds, for each of the seven
    recognized keys, the value of the last entry of the bag with that key
    ("" when that entry has no value), and holds no other key. *)
Theorem parse_properties_keeps_the_last_recognized :
  forall additional_properties ps props,
    py_iter additional_properties = Ok ps ->
    parse_properties additional_properties = Ok props ->
    forall k,
      dict_get props k
      = if existsb (String.eqb k) recognized_keys then bag_value ps k else None.
Proof.
  intros ap ps props Hiter Hparse k.
  unfold parse_properties in Hparse. rewrite Hiter in Hparse. simpl in Hparse.
  destruct (existsb (String.eqb k) recognized_keys) eqn:Hk.
  - apply existsb_exists in Hk. destruct Hk as (k' & Hin & Heq).
    apply String.eqb_eq in Heq. subst k'.
    rewrite (parse_loop_get _ _ _ _ Hparse Hin).
    destruct (bag_value ps k); reflexivity.
  - rewrite (parse_loop_other_keys _ _ _ _ Hparse Hk). reflexivity.
Qed.

Lemma parse_loop_objects ps : forall acc,
  (exists props, for_each ps parse_property acc = Ok props)
  <-> forallb is_object ps = true.
Proof.
  induction ps as [ | p ps IH ]; simpl; intros acc.
  - split; eauto.
  - destruct (is_object p) eqn:Hp; simpl.
    + destruct (parse_property_object p acc Hp) as (mid & Hmid).
      rewrite Hmid. simpl. apply IH.
    + rewrite (parse_property_not_object p acc Hp). simpl.
      split; [ intros (props & H); discriminate | discriminate ].
Qed.

Lemma parse_loop_raises ps : forall acc e,
  for_each ps parse_property acc = Raise e -> e = AttributeError.
Proof.
  induction ps as [ | p ps IH ]; simpl; intros acc e H; [ discriminate | ].
  destruct (is_object p) eqn:Hp.
  - destruct (parse_property_object p acc Hp) as (mid & Hmid).
    rewrite Hmid in H. simpl in H. exact (IH _ _ H).
  - rewrite (parse_property_not_object p acc Hp) in H. simpl in H. congruence.
Qed.

(** X2. [parse_properties] returns exactly when its argument can be iterated
    and every element is a dict.  It raises TypeError on an argument that
    cannot be iterated (None, a number) and AttributeError on the first
    element without [get] (a string, a list, None), and nothing else. *)
Theorem parse_properties_returns_iff_all_objects :
  forall additional_properties,
    ((exists props, parse_properties additional_properties = Ok props)
     <-> exists ps, py_iter additional_properties = Ok ps /\
                    forallb is_object ps = true) /\
    (forall e, parse_properties additional_properties = Raise e ->
       (e = TypeError /\ py_iter additional_properties = Raise TypeError) \/
       (e = AttributeError /\
        exists ps, py_iter additional_properties = Ok ps /\
                   forallb is_object ps = false)).
Proof.
  intros ap. unfold parse_properties.
  destruct (py_iter ap) as [ps | e0] eqn:Hiter; simpl.
  - split.
    + rewrite (parse_loop_objects ps []). split.
      * intros H. exists ps. auto.
      * intros (ps' & Heq & H). injection Heq as <-. exact H.
    + intros e H. right. split; [ exact (parse_loop_raises _ _ _ H) | ].
      exists ps. split; [ reflexivity | ].
      destruct (forallb is_object ps) eqn:Hall; [ | reflexivity ].
      apply (parse_loop_objects ps []) in Hall. destruct Hall as (props & Hp).
      congruence.
  - split.
    + split; [ intros (props & H); discriminate | ].
      intros (ps & H & _). discriminate.
    + intros e H. injection H as <-. left.
      destruct ap; simpl in Hiter; try discriminate;
        injection Hiter as <-; auto.
Qed.

(** *** [fetch_all_stations] *)

(** X3. One call of [fetch_all_stations] issues exactly one GET and touches
    neither the database nor the clock.  It returns, and then returns the
    decoded body as it is, exactly when the status is not 4xx or 5xx and the
    body decodes to a JSON array, object or string.  Otherwise it raises: a
    RequestException; or a TypeError on a decoded body that has no length;
    or, on a body beyond the limits of the decoder, the decoder's ValueError
    (an integer of more than 4300 digits) or RecursionError (nesting too
    deep). *)
Theorem fetch_all_stations_is_one_get :
  forall E w,
    let r := fst (fetch_all_stations E w) in
    let w' := snd (fetch_all_stations E w) in
    gets w' = S (gets w) /\ ticks w' = ticks w /\ db w' = db w /\
    (forall stations,
       r = Ok stations <->
       exists status,
         http_get E (gets w) = Response status (Some stations) /\
         ~ (400 <= status < 600) /\
         sized stations = true) /\
    (forall e,
       r = Raise e ->
       is_RequestException e = true \/
       (e = TypeError /\
        exists status v,
          http_get E (gets w) = Response status (Some v) /\
          sized v = false) \/
       (e = ValueError /\
        exists status,
          http_get E (gets w) = ResponseOverLimit status IntMaxStrDigits) \/
       (e = RecursionError /\
        exists status,
          http_get E (gets w) = ResponseOverLimit status RecursionLimit)).
Proof.
  intros E w. simpl. rewrite fetch_all_stations_eq. simpl.
  repeat split; try reflexivity.
  - intros H.
    destruct (fetch_result_returns _ _ H) as (status & n & Hget & Hst & Hlen).
    exists status. split; [ exact Hget | ].
    unfold raise_for_status in Hst.
    destruct ((400 <=? status) && (status <? 600)) eqn:Hrange;
      [ discriminate | ].
    split; [ apply andb_false_iff in Hrange; lia | ].
    destruct stations; simpl in Hlen; try discriminate; reflexivity.
  - intros (status & Hget & Hst & Hsized). rewrite Hget. simpl.
    unfold raise_for_status.
    replace ((400 <=? status) && (status <? 600)) with false
      by (symmetry; apply andb_false_iff; lia).
    simpl. destruct stations; try discriminate; reflexivity.
  - intros e H.
    destruct (http_get E (gets w)) as [k | status body | status lim];
      simpl in H.
    + injection H as <-. left. reflexivity.
    + unfold raise_for_status in H.
      destruct ((400 <=? status) && (status <? 600)); simpl in H.
      * injection H as <-. left. reflexivity.
      * destruct body as [v | ]; simpl in H.
        -- right. left.
           destruct v; simpl in H; try discriminate; injection H as <-;
             (split; [ reflexivity | ]); do 2 eexists;
             (split; [ reflexivity | reflexivity ]).
        -- injection H as <-. left. reflexivity.
    + unfold raise_for_status in H.
      destruct ((400 <=? status) && (status <? 600)); simpl in H.
      * injection H as <-. left. reflexivity.
      * right. right.
        destruct lim; simpl in H; injection H as <-; [ left | right ];
          (split; [ reflexivity | ]); eexists; reflexivity.
Qed.

(** *** [discover_stations] *)

Lemma insert_by_distance_sorted x l :
  StronglySorted by_distance l ->
  StronglySorted by_distance (insert_by_distance x l).
Proof.
  induction 1 as [ | y l Hl IH Hy ]; simpl.
  - repeat constructor.
  - destruct (nb_distance_m y <? nb_distance_m x) eqn:Hlt.
    + constructor; [ exact IH | ].
      apply Forall_forall. intros z Hz.
      apply insert_by_distance_In in Hz. destruct Hz as [-> | Hz].
      * unfold by_distance. apply Z.ltb_lt in Hlt. lia.
      * rewrite Forall_forall in Hy. exact (Hy z Hz).
    + constructor; [ constructor; assumption | ].
      apply Z.ltb_ge in Hlt. constructor; [ exact Hlt | ].
      apply Forall_forall. intros z Hz. rewrite Forall_forall in Hy.
      specialize (Hy z Hz). unfold by_distance in *. lia.
Qed.

Lemma sort_by_distance_sorted l : StronglySorted by_distance (sort_by_distance l).
Proof.
  induction l as [ | x l IH ]; simpl; [ constructor | ].
  apply insert_by_distance_sorted, IH.
Qed.

(** Sorting leaves the entries at one distance in the order they had. *)
Lemma insert_by_distance_stable d x l :
  StronglySorted by_distance l ->
  filter (fun n => nb_distance_m n =? d) (insert_by_distance x l)
  = if nb_distance_m x =? d
    then x :: filter (fun n => nb_distance_m n =? d) l
    else filter (fun n => nb_distance_m n =? d) l.
Proof.
  induction 1 as [ | y l Hl IH Hy ]; simpl.
  - destruct (nb_distance_m x =? d); reflexivity.
  - destruct (nb_distance_m y <? nb_distance_m x) eqn:Hlt; simpl.
    + rewrite IH. apply Z.ltb_lt in Hlt.
      destruct (nb_distance_m x =? d) eqn:Hx; [ | reflexivity ].
      apply Z.eqb_eq in Hx.
      replace (nb_distance_m y =? d) with false
        by (symmetry; apply Z.eqb_neq; lia).
      reflexivity.
    + destruct (nb_distance_m x =? d); reflexivity.
Qed.

Lemma sort_by_distance_stable d l :
  filter (fun n => nb_distance_m n =? d) (sort_by_distance l)
  = filter (fun n => nb_distance_m n =? d) l.
Proof.
  induction l as [ | x l IH ]; simpl; [ reflexivity | ].
  rewrite insert_by_distance_stable by apply sort_by_distance_sorted.
  rewrite IH. reflexivity.
Qed.

Lemma sort_by_distance_perm l : Permutation l (sort_by_distance l).
Proof.
  induction l as [ | x l IH ]; simpl; [ constructor | ].
  assert (Hins : forall l', Permutation (x :: l') (insert_by_distance x l')).
  { induction l' as [ | y l' IH' ]; simpl; [ apply Permutation_refl | ].
    destruct (nb_distance_m y <? nb_distance_m x).
    - eapply perm_trans; [ apply perm_swap | ]. apply perm_skip, IH'.
    - apply Permutation_refl. }
  eapply perm_trans; [ apply perm_skip, IH | apply Hins ].
Qed.

(** What a returning Discovery returns: the sorted list of the entries its
    loop made. *)
Lemma discovery_result P E w result w' :
  discover_stations P E w = (Ok result, w') ->
  result = [] \/
  exists all nearby,
    fetch_result (http_get E (gets w)) = Ok all /\
    discover_loop P all = Ok nearby /\
    result = sort_by_distance nearby.
Proof.
  rewrite discover_stations_eq. unfold discovery_outcome.
  destruct (fetch_result (http_get E (gets w))) as [all | e] eqn:Hfetch.
  - destruct (discover_loop P all) as [nearby | e] eqn:Hloop; [ | discriminate ].
    destruct (for_each (sort_by_distance nearby) _ _); [ | discriminate ].
    intros H. injection H as <- _. right. exists all, nearby. auto.
  - destruct (is_RequestException e); [ | discriminate ].
    intros H. injection H as <- _. left. reflexivity.
Qed.

(** X4. The list Discovery returns is in ascending order of the rounded
    distance, and it is the list its loop made, rearranged so that entries
    at the same distance keep the order in which the loop made them. *)
Theorem discovery_returns_nearest_first :
  forall P E w result w',
    discover_stations P E w = (Ok result, w') ->
    StronglySorted by_distance result /\
    forall all nearby,
      fetch_result (http_get E (gets w)) = Ok all ->
      discover_loop P all = Ok nearby ->
      Permutation nearby result /\
      forall d,
        filter (fun n => nb_distance_m n =? d) result
        = filter (fun n => nb_distance_m n =? d) nearby.
Proof.
  intros P E w result w' Hrun.
  destruct (discovery_result P E w result w' Hrun)
    as [-> | (all & nearby & Hfetch & Hloop & ->)].
  - split; [ constructor | ].
    intros all nearby Hfetch Hloop.
    rewrite discover_stations_eq in Hrun. unfold discovery_outcome in Hrun.
    rewrite Hfetch, Hloop in Hrun.
    destruct (for_each (sort_by_distance nearby) _ _); [ | discriminate ].
    injection Hrun as Hres _.
    assert (Hnil : nearby = []).
    { pose proof (sort_by_distance_perm nearby) as Hp. rewrite Hres in Hp.
      apply Permutation_nil, Permutation_sym, Hp. }
    subst nearby. split; [ constructor | reflexivity ].
  - split; [ apply sort_by_distance_sorted | ].
    intros all' nearby' Hfetch' Hloop'.
    rewrite Hfetch in Hfetch'. injection Hfetch' as <-.
    rewrite Hloop in Hloop'. injection Hloop' as <-.
    split; [ apply sort_by_distance_perm | ].
    intros d. apply sort_by_distance_stable.
Qed.

Lemma discover_station_entry P station nearby nearby' :
  discover_station P station nearby = Ok nearby' ->
  if in_radius P station
  then exists n, nearby' = nearby ++ [n] /\ entry_of P station n
  else nearby' = nearby.
Proof.
  unfold discover_station, in_radius, station_distance. intros H.
  bind_ok H. rename a into lat. bind_ok H. rename a into lon.
  bind_ok H. rename a into dist. simpl. rewrite Hm1.
  destruct (within_radius dist); [ | injection H as <-; reflexivity ].
  bind_ok H. rename a into ap. bind_ok H. rename a into props.
  bind_ok H. rename a into id. bind_ok H. rename a into name.
  bind_ok H. rename a into d. injection H as <-.
  eexists. split; [ reflexivity | ].
  unfold entry_of, kept_from, station_distance, station_props; simpl.
  rewrite Hm, Hm0, Hm2. simpl. rewrite Hm1.
  split; [ auto | ]. split; [ exists dist; auto | exists props; auto ].
Qed.

Lemma discover_loop_entries P l : forall acc out,
  for_each l (discover_station P) acc = Ok out ->
  exists added,
    out = acc ++ added /\
    Forall2 (entry_of P) (filter (in_radius P) l) added.
Proof.
  induction l as [ | s l IH ]; simpl; intros acc out H.
  - injection H as <-. exists []. rewrite app_nil_r. split; constructor.
  - bind_ok H. rename a into mid.
    pose proof (discover_station_entry _ _ _ _ Hm) as Hs.
    destruct (IH _ _ H) as (added & -> & Hall).
    destruct (in_radius P s).
    + destruct Hs as (n & -> & Hn). exists (n :: added).
      rewrite <- app_assoc. split; [ reflexivity | ].
      constructor; assumption.
    + subst mid. exists added. auto.
Qed.

(** X5. When Discovery has fetched a catalog and returns, what it returns
    has one entry for each station of the catalog whose distance is within
    the radius, a station listed twice counting twice, and none besides.
    The entry holds the station's identifier, name and coordinates, the
    distance rounded to an integer, and the dock, bike and e-bike counts of
    its property bag, "?" for a count the bag does not have. *)
Theorem discovery_returns_one_entry_per_station_in_radius :
  forall P E w status all_stations l result w',
    http_get E (gets w) = Response status (Some all_stations) ->
    raise_for_status status = Ok tt ->
    py_iter all_stations = Ok l ->
    discover_stations P E w = (Ok result, w') ->
    exists nearby,
      Forall2 (entry_of P) (filter (in_radius P) l) nearby /\
      Permutation nearby result.
Proof.
  intros P E w status all l result w' Hget Hstatus Hiter Hrun.
  rewrite discover_stations_eq, Hget in Hrun.
  unfold discovery_outcome, fetch_result in Hrun.
  rewrite Hstatus in Hrun. simpl in Hrun.
  assert (Hlen : exists n, py_len all = Ok n).
  { destruct all; simpl in Hiter; try discriminate; simpl; eauto. }
  destruct Hlen as (len & Hlen). rewrite Hlen in Hrun. simpl in Hrun.
  unfold discover_loop in Hrun. rewrite Hiter in Hrun. simpl in Hrun.
  destruct (for_each l (discover_station P) []) as [nearby | e] eqn:Hloop;
    [ | discriminate ].
  destruct (for_each (sort_by_distance nearby) _ _); [ | discriminate ].
  injection Hrun as <- _.
  destruct (discover_loop_entries P l _ _ Hloop) as (added & Hout & Hall).
  simpl in Hout. subst added.
  exists nearby. split; [ exact Hall | apply sort_by_distance_perm ].
Qed.


(** *** The registry after Discovery *)

Lemma ids_after_upsert t r k :
  In (Some k) (map ms_station_id (insert_or_replace t r)) <->
  In (Some k) (map ms_station_id t) \/ ms_station_id r = Some k.
Proof.
  unfold insert_or_replace.
  destruct (ms_station_id r) as [k0 | ] eqn:Hr;
    rewrite map_app, in_app_iff; simpl; rewrite Hr.
  - rewrite !in_map_iff. split.
    + intros [(x & Hx & Hin) | [H | []]]; [ | right; exact H ].
      apply filter_In in Hin. left. exists x. tauto.
    + intros [(x & Hx & Hin) | H]; [ | right; left; exact H ].
      destruct (String.eqb k0 k) eqn:Heq.
      * apply String.eqb_eq in Heq. subst k0. right. left. reflexivity.
      * left. exists x. split; [ exact Hx | ].
        apply filter_In. split; [ exact Hin | ].
        unfold same_key. rewrite Hx, Heq. reflexivity.
  - split.
    + intros [H | [H | []]]; [ left; exact H | discriminate ].
    + intros [H | H]; [ left; exact H | discriminate ].
Qed.

Lemma ids_after_upserts rows : forall t k,
  In (Some k) (map ms_station_id (fold_left insert_or_replace rows t)) <->
  In (Some k) (map ms_station_id t) \/ In (Some k) (map ms_station_id rows).
Proof.
  induction rows as [ | r rows IH ]; simpl; intros t k; [ tauto | ].
  rewrite IH, ids_after_upsert. intuition congruence.
Qed.

Lemma ms_rows_of_ids P l : forall rows,
  ms_rows_of P l = Ok rows ->
  (forall n, In n l -> exists s, nb_station_id n = JStr s) ->
  map ms_station_id rows = map text_id l.
Proof.
  induction l as [ | n l IH ]; simpl; intros rows H Hids.
  - injection H as <-. reflexivity.
  - bind_ok H. rename a into row. bind_ok H. rename a into rows'.
    injection H as <-. simpl. f_equal.
    + destruct (Hids n (or_introl eq_refl)) as (s & Hs).
      unfold ms_row_of in Hm. unfold text_id. rewrite Hs in *. simpl in Hm.
      do 4 bind_ok Hm. injection Hm as <-. reflexivity.
    + apply IH; [ reflexivity | ]. intros n' Hn'. apply Hids. right. exact Hn'.
Qed.

(** X7. Discovery only adds to the identifiers of the registry: when it
    returns and the identifiers of what it returns are strings, the text
    keys of the registry afterwards are those it had before together with
    those of the returned entries.  No row is dropped for being out of the
    radius now. *)
Theorem discovery_never_forgets_a_station :
  forall P E w result w',
    discover_stations P E w = (Ok result, w') ->
    (forall n, In n result -> exists s, nb_station_id n = JStr s) ->
    forall s,
      In (Some s) (registry_ids w') <->
      In (Some s) (registry_ids w) \/
      exists n, In n result /\ nb_station_id n = JStr s.
Proof.
  intros P E w result w' Hrun Hids s.
  assert (Hkeys : In (Some s) (map text_id result) <->
                  exists n, In n result /\ nb_station_id n = JStr s).
  { rewrite in_map_iff. split.
    - intros (n & Hn & Hin). exists n. split; [ exact Hin | ].
      unfold text_id in Hn. destruct (nb_station_id n); try discriminate.
      congruence.
    - intros (n & Hin & Hn). exists n. split; [ | exact Hin ].
      unfold text_id. rewrite Hn. reflexivity. }
  rewrite discover_stations_eq in Hrun. unfold discovery_outcome in Hrun.
  unfold registry_ids.
  destruct (fetch_result (http_get E (gets w))) as [all | e].
  - destruct (discover_loop P all) as [nearby | e]; [ | discriminate ].
    rewrite upserts_eq in Hrun.
    destruct (ms_rows_of P (sort_by_distance nearby)) as [rows | e] eqn:Hrows;
      [ | discriminate ].
    injection Hrun as <- <-. simpl.
    rewrite ids_after_upserts, (ms_rows_of_ids P _ _ Hrows Hids), Hkeys.
    reflexivity.
  - destruct (is_RequestException e); [ | discriminate ].
    injection Hrun as <- <-. simpl. split; [ auto | ].
    intros [H | (n & [] & _)]. exact H.
Qed.

Lemma text_keys_app t1 t2 : text_keys (t1 ++ t2) = text_keys t1 ++ text_keys t2.
Proof. unfold text_keys. apply flat_map_app. Qed.

Lemma text_keys_without k t :
  text_keys (filter (fun r => negb (same_key k r)) t)
  = filter (fun k' => negb (String.eqb k k')) (text_keys t).
Proof.
  induction t as [ | r t IH ]; simpl; [ reflexivity | ].
  unfold same_key at 1. destruct (ms_station_id r) as [k' | ] eqn:Hr; simpl.
  - destruct (String.eqb k k'); simpl; rewrite ?Hr; simpl; rewrite IH;
      reflexivity.
  - rewrite Hr. simpl. exact IH.
Qed.

Lemma upsert_keeps_keys_unique t r :
  NoDup (text_keys t) -> NoDup (text_keys (insert_or_replace t r)).
Proof.
  intros Hnd. unfold insert_or_replace.
  destruct (ms_station_id r) as [k | ] eqn:Hr; rewrite text_keys_app; simpl;
    rewrite Hr; simpl.
  - rewrite text_keys_without. apply NoDup_app.
    + apply NoDup_filter, Hnd.
    + repeat constructor. intros [].
    + intros k' Hin [<- | []]. apply filter_In in Hin.
      destruct Hin as (_ & Hne). rewrite String.eqb_refl in Hne. discriminate.
  - rewrite app_nil_r. exact Hnd.
Qed.

Lemma upserts_keep_keys_unique rows : forall t,
  NoDup (text_keys t) -> NoDup (text_keys (fold_left insert_or_replace rows t)).
Proof.
  induction rows as [ | r rows IH ]; simpl; intros t Hnd; [ exact Hnd | ].
  apply IH, upsert_keeps_keys_unique, Hnd.
Qed.

(** X8. Discovery keeps the primary key of the registry: if no two rows
    share a text key before a call, none do after it, whatever the catalog
    lists and however often it lists a station. *)
Theorem discovery_keeps_registry_keys_unique :
  forall P E w,
    NoDup (text_keys (monitored_stations (db w))) ->
    NoDup (text_keys (monitored_stations (db (snd (discover_stations P E w))))).
Proof.
  intros P E w Hnd.
  rewrite discover_stations_eq, discovery_outcome_world. simpl.
  unfold discovery_db.
  destruct (fetch_result (http_get E (gets w))); [ | exact Hnd ].
  destruct (discover_loop P a); [ | exact Hnd ].
  destruct (ms_rows_of P (sort_by_distance a0)); [ | exact Hnd ].
  simpl. apply upserts_keep_keys_unique, Hnd.
Qed.

Lemma discover_station_raises P station e :
  station_distance P station = Raise e ->
  forall nearby, exists e', discover_station P station nearby = Raise e'.
Proof.
  unfold station_distance, discover_station. intros H nearby.
  destruct (py_get station "lat" (JInt 0)) as [lat | ]; simpl in *;
    [ | eauto ].
  destruct (py_get station "lon" (JInt 0)) as [lon | ]; simpl in *;
    [ | eauto ].
  rewrite H. simpl. eauto.
Qed.

(** X9. Every station of the catalog has its distance computed, in the
    radius or not: if for one of them that fails (a latitude that is a
    string or null, say), Discovery raises instead of returning, and commits
    nothing. *)
Theorem one_bad_coordinate_aborts_discovery :
  forall P E w status all_stations l station e,
    http_get E (gets w) = Response status (Some all_stations) ->
    raise_for_status status = Ok tt ->
    py_iter all_stations = Ok l ->
    In station l ->
    station_distance P station = Raise e ->
    (exists e', fst (discover_stations P E w) = Raise e') /\
    db (snd (discover_stations P E w)) = db w.
Proof.
  intros P E w status all l station e Hget Hstatus Hiter Hin Hdist.
  rewrite discover_stations_eq, Hget.
  unfold discovery_outcome, fetch_result. rewrite Hstatus. simpl.
  assert (Hlen : exists n, py_len all = Ok n).
  { destruct all; simpl in Hiter; try discriminate; simpl; eauto. }
  destruct Hlen as (len & Hlen). rewrite Hlen. simpl.
  unfold discover_loop. rewrite Hiter. simpl.
  destruct (for_each_raises (discover_station P) station l Hin
              (discover_station_raises P station e Hdist) []) as (e' & He').
  rewrite He'. simpl. split; [ eauto | reflexivity ].
Qed.

(** *** The rows of a cycle *)

Lemma key_is_inv sid k :
  key_is sid k = true ->
  (exists s, sid = Some s /\ k = JStr s) \/ (sid = None /\ k = JNull).
Proof.
  destruct sid as [s | ], k; simpl; try discriminate.
  - intros H. apply String.eqb_eq in H. subst. left. eauto.
  - intros _. right. auto.
Qed.

Section CycleRows.

Variable P : platform.
Variable now_utc : string.
Variable m : station_map_t.
Hypothesis m_filed : filed_by_id m.

Lemma collect_station_row sid conn c conn' c' :
  collect_station P now_utc m sid (conn, c) = Ok (conn', c') ->
  monitored_stations conn' = monitored_stations conn /\
  if served m sid
  then exists row,
         bike_availability conn' = bike_availability conn ++ [row] /\
         c' = c + 1 /\
         sid = Some (ba_station_id row) /\
         snapshot_of P now_utc (station_map_get m sid) row
  else conn' = conn /\ c' = c.
Proof.
  unfold collect_station, served. intros H.
  destruct (py_truthy (station_map_get m sid)) eqn:Ht; simpl in *.
  2:{ injection H as <- <-. auto. }
  destruct (station_map_get_found m sid m_filed Ht) as (k & Hkey & Hid).
  bind_ok H. rename a into ap. bind_ok H. rename a into props.
  assert (Hprops : station_props (station_map_get m sid) = Ok props).
  { unfold station_props. rewrite Hm. simpl. exact Hm0. }
  rewrite Hprops.
  destruct (not_serviceable props) eqn:Hflag; simpl.
  { injection H as <- <-. auto. }
  rewrite Hid in H. simpl in H.
  bind_ok H. rename a into name.
  bind_ok H. rename a into bikes. bind_ok H. rename a into standard.
  bind_ok H. rename a into ebikes. bind_ok H. rename a into empty.
  bind_ok H. rename a into docks.
  bind_ok H. rename a into lat. bind_ok H. rename a into lon.
  bind_ok H. rename a into conn1. injection H as <- <-.
  unfold execute_insert in Hm9. simpl in Hm9.
  destruct (key_is_inv sid k Hkey) as [(s & -> & ->) | (-> & ->)];
    simpl in Hm9.
  - repeat bind_ok Hm9.
    injection Hm9 as <-. simpl. split; [ reflexivity | ].
    eexists. split; [ reflexivity | ]. split; [ reflexivity | ].
    split; [ reflexivity | ].
    unfold snapshot_of; simpl. rewrite Hprops.
    split; [ reflexivity | ]. split; [ exact Hid | ].
    split; [ exists props; auto 10 | ].
    split; [ do 2 eexists; eauto | ].
    split; do 2 eexists; eauto.
  - repeat bind_ok Hm9. discriminate.
Qed.

Lemma collect_loop_rows ids : forall conn c conn' c',
  for_each ids (collect_station P now_utc m) (conn, c) = Ok (conn', c') ->
  monitored_stations conn' = monitored_stations conn /\
  exists new,
    bike_availability conn' = bike_availability conn ++ new /\
    c' = c + Z.of_nat (List.length new) /\
    map (fun row => Some (ba_station_id row)) new = filter (served m) ids /\
    Forall2 (fun sid row => snapshot_of P now_utc (station_map_get m sid) row)
      (filter (served m) ids) new.
Proof.
  induction ids as [ | sid ids IH ]; simpl; intros conn c conn' c' H.
  - injection H as <- <-. split; [ reflexivity | ]. exists [].
    rewrite app_nil_r. simpl. repeat split; try lia; constructor.
  - bind_ok H. destruct a as [conn1 c1].
    destruct (collect_station_row _ _ _ _ _ Hm) as (Hreg1 & Hstep).
    destruct (IH _ _ _ _ H) as (Hreg & new & Hnew & Hc & Hids & Hsnap).
    split; [ congruence | ].
    destruct (served m sid).
    + destruct Hstep as (row & Hrow & -> & Hsid & Hs).
      exists (row :: new). rewrite Hnew, Hrow, <- app_assoc.
      split; [ reflexivity | ].
      split; [ simpl List.length; lia | ].
      split; [ simpl; rewrite Hids, Hsid; reflexivity | ].
      constructor; assumption.
    + destruct Hstep as (-> & ->). exists new. auto.
Qed.

End CycleRows.

Lemma fetch_result_ok r all :
  fetch_result r = Ok all ->
  exists status,
    r = Response status (Some all) /\ raise_for_status status = Ok tt.
Proof.
  intros H.
  destruct (fetch_result_returns _ _ H) as (status & n & Hr & Hst & _).
  exists status. auto.
Qed.

Lemma served_serviceable_in all l m sid :
  py_iter all = Ok l -> build_station_map all = Ok m ->
  served m sid = serviceable_in l sid /\
  (serviceable_in l sid = true ->
   catalog_entry l sid = Some (station_map_get m sid)).
Proof.
  intros Hiter Hbuild.
  destruct (station_map_get_catalog all l m sid Hiter Hbuild) as (_ & Hget).
  unfold served, serviceable_in. rewrite Hget.
  destruct (catalog_entry l sid) as [s | ] eqn:Hentry.
  - rewrite (catalog_entry_truthy _ _ _ Hentry). simpl. auto.
  - simpl. split; [ reflexivity | discriminate ].
Qed.

(** A cycle that returns "ok" ran its loop to the end, over the identifiers
    of the registry and the map of the catalog it collected from, and
    committed what the loop left. *)
Lemma ok_cycle_loop P E w w' :
  collect_once P E w = (Ok "ok", w') ->
  exists status all l m w1 c,
    http_get E (collection_get w) = Response status (Some all) /\
    py_iter all = Ok l /\
    build_station_map all = Ok m /\
    filed_by_id m /\
    bike_availability (db w1) = bike_availability (db w) /\
    for_each (selected_ids w1) (collect_station P (utc_now E (ticks w)) m)
      (db w1, 0) = Ok (db w', c).
Proof.
  intros Hrun.
  destruct (collect_once_inv P E w _ w' Hrun)
    as [(w1 & Hout & _ & Hgets & Hticks & Hread & _)
       | [(_ & (e & _ & He) & _) | (_ & _ & He & _)]];
    [ | discriminate | discriminate ].
  unfold collection_outcome in Hout.
  destruct (fetch_result (http_get E (gets w1))) as [all | e] eqn:Hfetch.
  - destruct (fetch_result_ok _ _ Hfetch) as (status & Hget & _).
    destruct (build_station_map all) as [m | e] eqn:Hbuild; [ | discriminate ].
    assert (Hiter : exists l, py_iter all = Ok l).
    { unfold build_station_map in Hbuild. bind_ok Hbuild. eauto. }
    destruct Hiter as (l & Hiter).
    destruct (station_map_get_catalog all l m None Hiter Hbuild) as (Hfiled & _).
    destruct (for_each _ _ _) as [[conn c] | e] eqn:Hloop; [ | discriminate ].
    injection Hout as <-. simpl.
    exists status, all, l, m, w1, c. rewrite <- Hgets, <- Hticks.
    repeat split; auto.
  - destruct (is_RequestException e); discriminate.
Qed.

(** A list of identifiers without its Nones. *)
Lemma somes_ids t :
  flat_map (fun o : option string => match o with Some k => [k] | None => [] end)
    (map ms_station_id t)
  = text_keys t.
Proof.
  unfold text_keys. induction t as [ | r t IH ]; simpl; [ reflexivity | ].
  rewrite IH. reflexivity.
Qed.

Lemma somes_distinct (f : option string -> bool) ids : forall xs,
  map Some xs = filter f ids ->
  NoDup (flat_map (fun o : option string =>
                     match o with Some k => [k] | None => [] end) ids) ->
  NoDup xs.
Proof.
  induction ids as [ | o ids IH ]; simpl; intros xs Hxs Hnd.
  - destruct xs; [ constructor | discriminate ].
  - assert (Htail : NoDup (flat_map (fun o : option string =>
                       match o with Some k => [k] | None => [] end) ids)).
    { destruct o; simpl in Hnd; [ inversion Hnd; assumption | exact Hnd ]. }
    destruct (f o); [ | exact (IH xs Hxs Htail) ].
    destruct xs as [ | x xs ]; [ discriminate | ].
    simpl in Hxs. injection Hxs as <- Hxs. simpl in Hnd.
    inversion Hnd as [ | ? ? Hnotin _ ]; subst.
    constructor; [ | exact (IH xs Hxs Htail) ].
    intros Hin. apply Hnotin. apply in_flat_map. exists (Some x).
    split; [ | left; reflexivity ].
    assert (Hs : In (Some x) (map Some xs)) by (apply in_map; exact Hin).
    rewrite Hxs in Hs. apply filter_In in Hs. tauto.
Qed.

(** X20. [get_monitored_station_ids] changes nothing and returns the
    identifiers of the registry, each as often as the registry has it, in
    ascending order of the key: None, for a NULL key, before any string, and
    strings byte by byte. *)
Theorem get_monitored_station_ids_in_key_order :
  forall w,
    exists ids,
      get_monitored_station_ids w = (Ok ids, w) /\
      Permutation (registry_ids w) ids /\
      StronglySorted (fun a b => key_le a b = true) ids.
Proof.
  intros w. exists (selected_ids w). split; [ reflexivity | ].
  split; [ apply selected_ids_perm | apply index_scan_sorted ].
Qed.

(** X10. With a registry that is not empty, a cycle only reads it: whatever
    the outcome, the registry is as before, Discovery is not called, and the
    cycle has issued one GET and read the clock twice. *)
Theorem collector_only_reads_a_registry_that_is_not_empty :
  forall P E w,
    registry_ids w <> [] ->
    let w' := snd (collect_once P E w) in
    monitored_stations (db w') = monitored_stations (db w) /\
    trace w' = trace w ++ [CallCollect; HttpGet] /\
    gets w' = S (gets w) /\
    ticks w' = S (S (ticks w)).
Proof.
  intros P E w Hne. simpl.
  rewrite collect_once_eq.
  destruct (registry_ids w) as [ | sid ids ] eqn:Hids; [ congruence | ].
  rewrite collect_stations_eq.
  destruct (collection_outcome P E (selected_ids (log CallCollect w))
                (log CallCollect w))
    as [r w'] eqn:Hout. simpl.
  destruct (collection_outcome_inv P E _ _ r w' Hout)
    as (Hreg & Hgets & Htrace & _).
  split; [ exact Hreg | ].
  split; [ rewrite Htrace; simpl; rewrite <- app_assoc; reflexivity | ].
  split; [ exact Hgets | ].
  unfold collection_outcome in Hout.
  destruct (fetch_result _) as [all | e].
  - destruct (build_station_map all) as [m | e]; [ | injection Hout as _ <-; reflexivity ].
    destruct (for_each _ _ _); injection Hout as _ <-; reflexivity.
  - destruct (is_RequestException e); injection Hout as _ <-; reflexivity.
Qed.

(** X11. A cycle that returns says "ok" or "error", nothing else; and the
    table of readings differs after a cycle only when it said "ok": on
    "error" and on an exception the readings are those from before. *)
Theorem readings_change_only_when_the_cycle_says_ok :
  forall P E w,
    let r := fst (collect_once P E w) in
    let w' := snd (collect_once P E w) in
    (forall s, r = Ok s -> s = "ok" \/ s = "error") /\
    (r <> Ok "ok" -> bike_availability (db w') = bike_availability (db w)).
Proof.
  intros P E w. simpl.
  destruct (collect_once P E w) as [r w'] eqn:Hrun. simpl.
  destruct (collect_once_inv P E w r w' Hrun)
    as [(w1 & Hout & _ & _ & _ & Hread & _)
       | [(_ & (e & _ & ->) & Hread & _) | (_ & _ & -> & _ & Hread & _)]].
  - destruct (collection_outcome_inv P E _ w1 r w' Hout)
      as (_ & _ & _ & [(-> & _ & Hdb) | [(e & -> & _ & Hdb) | (-> & _)]]).
    + split; [ intros s H; injection H as <-; auto | ].
      intros _. rewrite Hdb. exact Hread.
    + split; [ discriminate | ]. intros _. rewrite Hdb. exact Hread.
    + split; [ intros s H; injection H as <-; auto | congruence ].
  - split; [ discriminate | intros _; exact Hread ].
  - split; [ intros s H; injection H as <-; auto | intros _; exact Hread ].
Qed.

Lemma filter_perm {A} (f : A -> bool) l l' :
  Permutation l l' -> Permutation (filter f l) (filter f l').
Proof.
  induction 1 as [ | x l l' _ IH | x y l | l l' l'' _ IH1 _ IH2 ]; simpl.
  - apply perm_nil.
  - destruct (f x); [ apply perm_skip | ]; exact IH.
  - destruct (f x), (f y); try apply Permutation_refl. apply perm_swap.
  - exact (perm_trans IH1 IH2).
Qed.

Lemma filter_sorted {A} (R : A -> A -> Prop) (f : A -> bool) l :
  StronglySorted R l -> StronglySorted R (filter f l).
Proof.
  induction 1 as [ | x l Hl IH Hx ]; simpl; [ constructor | ].
  destruct (f x); [ | exact IH ].
  constructor; [ exact IH | ].
  rewrite Forall_forall in *. intros y Hy. apply filter_In in Hy.
  apply Hx. tauto.
Qed.

Lemma sorted_under_map {A B} (g : A -> B) (R : B -> B -> Prop) l :
  StronglySorted R (map g l) -> StronglySorted (fun a b => R (g a) (g b)) l.
Proof.
  induction l as [ | x l IH ]; simpl; intros H; [ constructor | ].
  apply StronglySorted_inv in H. destruct H as (Hl & Hx).
  constructor; [ exact (IH Hl) | ].
  rewrite Forall_forall in *. intros y Hy. apply Hx, in_map, Hy.
Qed.

(** X12. A cycle that returns "ok" writes one row for each identifier of the
    registry whose station in the catalog is serviceable, and none for the
    others, in the order in which the registry yields its identifiers: by
    ascending station id, whatever the order in which the stations were
    upserted.  So when the keys of the registry are distinct, no station
    gets two rows in one cycle. *)
Theorem one_row_per_serviceable_station_in_key_order :
  forall P E w w' status all l,
    collect_once P E w = (Ok "ok", w') ->
    http_get E (collection_get w) = Response status (Some all) ->
    py_iter all = Ok l ->
    exists new,
      bike_availability (db w') = bike_availability (db w) ++ new /\
      map (fun row => Some (ba_station_id row)) new
      = filter (serviceable_in l) (selected_ids w') /\
      Permutation (map (fun row => Some (ba_station_id row)) new)
        (filter (serviceable_in l) (registry_ids w')) /\
      StronglySorted
        (fun a b => String.leb (ba_station_id a) (ba_station_id b) = true) new /\
      (NoDup (text_keys (monitored_stations (db w'))) ->
       NoDup (map ba_station_id new)).
Proof.
  intros P E w w' status all l Hrun Hget Hiter.
  destruct (ok_cycle_loop P E w w' Hrun)
    as (status' & all' & l' & m & w1 & c & Hget' & Hiter' & Hbuild & Hfiled
        & Hread & Hloop).
  rewrite Hget in Hget'. injection Hget' as <- <-.
  rewrite Hiter in Hiter'. injection Hiter' as <-.
  destruct (collect_loop_rows P _ m Hfiled _ _ _ _ _ Hloop)
    as (Hreg & new & Hnew & _ & Hids & _).
  assert (Hfilter : filter (served m) (selected_ids w1)
                    = filter (serviceable_in l) (selected_ids w')).
  { unfold selected_ids. rewrite Hreg. apply filter_ext. intros sid.
    apply (served_serviceable_in all l m sid Hiter Hbuild). }
  rewrite Hfilter in Hids.
  exists new. rewrite Hnew, Hread.
  split; [ reflexivity | ]. split; [ exact Hids | ].
  split; [ | split ].
  - rewrite Hids. apply filter_perm, Permutation_sym, selected_ids_perm.
  - apply (sorted_under_map (fun row => Some (ba_station_id row))
             (fun a b => key_le a b = true)).
    rewrite Hids. apply filter_sorted, index_scan_sorted.
  - intros Hnd.
    apply (somes_distinct (serviceable_in l) (selected_ids w')
             (map ba_station_id new));
      [ rewrite map_map; exact Hids | ].
    apply (Permutation_NoDup
             (Permutation_flat_map _ (selected_ids_perm w'))).
    unfold registry_ids. rewrite somes_ids. exact Hnd.
Qed.

Lemma Forall2_along_map {A B} (R : A -> B -> Prop) (g : B -> A) xs ys :
  Forall2 R xs ys -> map g ys = xs -> forall y, In y ys -> R (g y) y.
Proof.
  induction 1 as [ | x y xs ys Hxy _ IH ]; simpl; intros Hmap z Hin;
    [ contradiction | ].
  injection Hmap as Hx Hxs. destruct Hin as [<- | Hin].
  - rewrite Hx. exact Hxy.
  - exact (IH Hxs z Hin).
Qed.

(** X13. Each row a cycle that returns "ok" has written is a snapshot of the
    station the catalog has, last, for its identifier: the timestamp of the
    cycle, the five counts as [int] reads them from the property bag with 0
    for a count that is missing, and the name and the coordinates of the
    feed as SQLite stores them. *)
Theorem a_reading_is_a_snapshot_of_the_feed :
  forall P E w w' status all l,
    collect_once P E w = (Ok "ok", w') ->
    http_get E (collection_get w) = Response status (Some all) ->
    py_iter all = Ok l ->
    exists new,
      bike_availability (db w') = bike_availability (db w) ++ new /\
      forall row, In row new ->
        exists station,
          catalog_entry l (Some (ba_station_id row)) = Some station /\
          snapshot_of P (utc_now E (ticks w)) station row.
Proof.
  intros P E w w' status all l Hrun Hget Hiter.
  destruct (ok_cycle_loop P E w w' Hrun)
    as (status' & all' & l' & m & w1 & c & Hget' & Hiter' & Hbuild & Hfiled
        & Hread & Hloop).
  rewrite Hget in Hget'. injection Hget' as <- <-.
  rewrite Hiter in Hiter'. injection Hiter' as <-.
  destruct (collect_loop_rows P _ m Hfiled _ _ _ _ _ Hloop)
    as (_ & new & Hnew & _ & Hids & Hsnap).
  exists new. rewrite Hnew, Hread. split; [ reflexivity | ].
  intros row Hrow.
  pose proof (Forall2_along_map _ _ _ _ Hsnap Hids row Hrow) as Hs.
  simpl in Hs.
  assert (Hserved : served m (Some (ba_station_id row)) = true).
  { assert (Hin : In (Some (ba_station_id row))
                     (map (fun row => Some (ba_station_id row)) new)).
    { apply in_map_iff. exists row. auto. }
    rewrite Hids in Hin. apply filter_In in Hin. tauto. }
  destruct (served_serviceable_in all l m (Some (ba_station_id row))
              Hiter Hbuild) as (Heq & Hentry).
  rewrite Heq in Hserved.
  exists (station_map_get m (Some (ba_station_id row))).
  split; [ exact (Hentry Hserved) | exact Hs ].
Qed.

(** *** What aborts a cycle *)

(** A cycle that fetched its catalog ends in an exception, the readings as
    before, as soon as the map cannot be built or the body of the loop
    raises for one identifier of the registry. *)
Lemma cycle_aborts P E w status all l :
  http_get E (collection_get w) = Response status (Some all) ->
  raise_for_status status = Ok tt ->
  py_iter all = Ok l ->
  registry_ids (snd (collect_once P E w)) <> [] ->
  (forall m, build_station_map all = Ok m ->
     exists sid,
       In sid (registry_ids (snd (collect_once P E w))) /\
       forall st, exists e,
         collect_station P (utc_now E (ticks w)) m sid st = Raise e) ->
  (exists e, fst (collect_once P E w) = Raise e) /\
  bike_availability (db (snd (collect_once P E w)))
  = bike_availability (db w).
Proof.
  intros Hget Hst Hiter Hne Hbody.
  destruct (collect_once P E w) as [r w'] eqn:Hrun. simpl in *.
  destruct (collect_once_inv P E w r w' Hrun)
    as [(w1 & Hout & _ & Hgets & Hticks & Hread & _)
       | [(_ & (e & _ & ->) & Hread & _) | (_ & _ & _ & Hempty & _)]].
  - destruct (collection_outcome_inv P E _ w1 r w' Hout) as (Hreg & _).
    unfold collection_outcome in Hout. rewrite Hgets, Hget in Hout.
    unfold fetch_result in Hout. rewrite Hst in Hout. simpl in Hout.
    assert (Hlen : exists n, py_len all = Ok n).
    { destruct all; simpl in Hiter; try discriminate; simpl; eauto. }
    destruct Hlen as (n & Hlen). rewrite Hlen in Hout. simpl in Hout.
    destruct (build_station_map all) as [m | e] eqn:Hbuild.
    + destruct (Hbody m eq_refl) as (sid & Hin & Hraise).
      assert (Hin1 : In sid (selected_ids w1)).
      { apply selected_ids_In. unfold registry_ids in *.
        rewrite <- Hreg. exact Hin. }
      rewrite Hticks in Hout.
      destruct (for_each_raises _ sid (selected_ids w1) Hin1 Hraise (db w1, 0))
        as (e & He).
      rewrite He in Hout. injection Hout as <- <-.
      split; [ eauto | exact Hread ].
    + injection Hout as <- <-. split; [ eauto | exact Hread ].
  - split; [ eauto | exact Hread ].
  - congruence.
Qed.

(** X14. The collector files every station of the catalog under its
    identifier before it looks at the registry: one station without an
    identifier, or with one that cannot be a key (a list, a dict), makes the
    cycle raise and write nothing, monitored or not. *)
Theorem one_station_without_id_aborts_the_cycle :
  forall P E w status all l station,
    http_get E (collection_get w) = Response status (Some all) ->
    raise_for_status status = Ok tt ->
    py_iter all = Ok l ->
    registry_ids (snd (collect_once P E w)) <> [] ->
    In station l ->
    (forall k, py_getitem station "id" = Ok k -> hashable k = false) ->
    (exists e, fst (collect_once P E w) = Raise e) /\
    bike_availability (db (snd (collect_once P E w)))
    = bike_availability (db w).
Proof.
  intros P E w status all l station Hget Hst Hiter Hne Hin Hid.
  apply (cycle_aborts P E w status all l Hget Hst Hiter Hne).
  intros m Hbuild. exfalso.
  unfold build_station_map in Hbuild. rewrite Hiter in Hbuild. simpl in Hbuild.
  destruct (for_each_raises station_map_insert station l Hin) with (s := @nil (json * json))
    as (e & He).
  - intros acc. unfold station_map_insert.
    destruct (py_getitem station "id") as [k | e]; simpl; [ | eauto ].
    rewrite (Hid k eq_refl). eauto.
  - congruence.
Qed.

Lemma collect_station_raises_on_field P now m sid station props field e0 st :
  station_map_get m sid = station ->
  py_truthy station = true ->
  station_props station = Ok props ->
  not_serviceable props = false ->
  In field ["commonName"; "lat"; "lon"] ->
  py_getitem station field = Raise e0 ->
  exists e, collect_station P now m sid st = Raise e.
Proof.
  intros Hget Ht Hp Hf Hfield Hbad.
  unfold collect_station. destruct st as [conn c]. rewrite Hget, Ht. simpl.
  unfold station_props in Hp. bind_ok Hp. simpl. rewrite Hp. simpl. rewrite Hf.
  simpl in Hfield.
  destruct Hfield as [<- | [<- | [<- | []]]];
    repeat match goal with
      | |- exists e, rbind ?c _ = Raise e =>
          let Hx := fresh "Hx" in
          destruct c eqn:Hx; simpl; [ try congruence | eexists; reflexivity ]
      end.
Qed.

(** X15. Where Discovery reads a missing coordinate as 0, the collector
    indexes: a serviceable monitored station whose entry in the catalog
    lacks "commonName", "lat" or "lon" makes the cycle raise, and none of
    the cycle's rows is committed. *)
Theorem missing_field_aborts_the_cycle :
  forall P E w status all l sid station props field e0,
    http_get E (collection_get w) = Response status (Some all) ->
    raise_for_status status = Ok tt ->
    py_iter all = Ok l ->
    In (Some sid) (registry_ids (snd (collect_once P E w))) ->
    catalog_entry l (Some sid) = Some station ->
    station_props station = Ok props ->
    not_serviceable props = false ->
    In field ["commonName"; "lat"; "lon"] ->
    py_getitem station field = Raise e0 ->
    (exists e, fst (collect_once P E w) = Raise e) /\
    bike_availability (db (snd (collect_once P E w)))
    = bike_availability (db w).
Proof.
  intros P E w status all l sid station props field e0
    Hget Hst Hiter Hin Hentry Hp Hf Hfield Hbad.
  apply (cycle_aborts P E w status all l Hget Hst Hiter).
  - intros Hnil. rewrite Hnil in Hin. contradiction.
  - intros m Hbuild. exists (Some sid). split; [ exact Hin | ].
    destruct (station_map_get_catalog all l m (Some sid) Hiter Hbuild)
      as (_ & Hmget).
    rewrite Hentry in Hmget. intros st.
    exact (collect_station_raises_on_field P _ m (Some sid) station props
             field e0 st Hmget (catalog_entry_truthy _ _ _ Hentry)
             Hp Hf Hfield Hbad).
Qed.

(** *** [run_burst] *)

Lemma pairs_shift k :
  flat_map (fun _ : nat => [CallCollect; Sleep 60]) (seq 0 k) ++ [CallCollect]
  = CallCollect :: flat_map (fun _ : nat => [Sleep 60; CallCollect]) (seq 0 k).
Proof.
  generalize 0%nat. induction k as [ | k IH ]; intros a; simpl;
    [ reflexivity | ].
  rewrite IH. reflexivity.
Qed.

Lemma schedule_before_last cycles k : forall a,
  Z.of_nat (a + k) <= cycles - 1 ->
  flat_map (fun i => CallCollect :: if i <? cycles - 1 then [Sleep 60] else [])
    (map Z.of_nat (seq a k))
  = flat_map (fun _ : nat => [CallCollect; Sleep 60]) (seq a k).
Proof.
  induction k as [ | k IH ]; intros a Ha; simpl; [ reflexivity | ].
  replace (Z.of_nat a <? cycles - 1) with true
    by (symmetry; apply Z.ltb_lt; lia).
  simpl. rewrite IH by lia. reflexivity.
Qed.

Lemma schedule_alternating cycles :
  schedule cycles (py_range cycles) = alternating (Z.to_nat cycles).
Proof.
  unfold schedule, py_range, alternating.
  destruct (Z.to_nat cycles) as [ | k ] eqn:Hn; [ reflexivity | ].
  rewrite seq_S, map_app, flat_map_app. simpl.
  replace (Z.of_nat k <? cycles - 1) with false
    by (symmetry; apply Z.ltb_ge; lia).
  simpl. rewrite <- pairs_shift. f_equal.
  apply schedule_before_last. lia.
Qed.

(** X16. A burst of any number [cycles] in which every cycle returns makes
    exactly that many cycles, with a sleep of 60 seconds between each two
    and none before the first or after the last; for [cycles] at most 0 it
    makes none. *)
Theorem burst_alternates_cycles_and_sleeps :
  forall P E cycles w,
    fst (run_burst P E cycles w) = Ok tt ->
    exists added,
      trace (snd (run_burst P E cycles w)) = trace w ++ added /\
      filter scheduler_event added = alternating (Z.to_nat cycles).
Proof.
  intros P E cycles w Hok. unfold run_burst in *.
  destruct (burst_schedule P E cycles (py_range cycles) w Hok)
    as (added & Htrace & Hsched).
  exists added. split; [ exact Htrace | ].
  rewrite Hsched. apply schedule_alternating.
Qed.

Lemma burst_prefix P E cycles l : forall w,
  exists added rest,
    trace (snd (mfor l
                  (fun i => mbind (collect_once P E)
                              (fun _ => if i <? cycles - 1 then time_sleep 60
                                        else ret tt))
                  w))
    = trace w ++ added /\
    schedule cycles l = filter scheduler_event added ++ rest.
Proof.
  induction l as [ | i l IH ]; simpl; intros w.
  - exists [], []. rewrite app_nil_r. split; reflexivity.
  - unfold mbind at 1. unfold mbind at 1.
    destruct (collect_once_trace P E w) as (added1 & Htrace1 & Hsched1).
    destruct (collect_once P E w) as [[s | e] w1]; simpl in *.
    + destruct (i <? cycles - 1).
      * change (time_sleep 60 w1) with (@Ok unit tt, log (Sleep 60) w1).
        cbv beta iota.
        destruct (IH (log (Sleep 60) w1)) as (added & rest & Htrace & Hsched).
        exists (CallCollect :: added1 ++ Sleep 60 :: added), rest.
        rewrite Htrace. simpl trace. rewrite Htrace1, <- !app_assoc. simpl.
        split; [ reflexivity | ].
        rewrite filter_app, Hsched1. simpl. rewrite Hsched. reflexivity.
      * unfold ret at 1. cbv beta iota.
        destruct (IH w1) as (added & rest & Htrace & Hsched).
        exists (CallCollect :: added1 ++ added), rest.
        rewrite Htrace, Htrace1, <- !app_assoc. simpl.
        split; [ reflexivity | ].
        rewrite filter_app, Hsched1, Hsched. reflexivity.
    + exists (CallCollect :: added1). eexists.
      split; [ exact Htrace1 | ]. simpl. rewrite Hsched1. reflexivity.
Qed.

(** X17. Whatever happens in a burst, also when a cycle raises and ends it,
    the cycles and sleeps it has made are a beginning of the alternation of
    [cycles] cycles with sleeps of 60 seconds: never more cycles than asked
    for, never two sleeps in a row, never a sleep first. *)
Theorem burst_is_a_beginning_of_the_alternation :
  forall P E cycles w,
    exists added rest,
      trace (snd (run_burst P E cycles w)) = trace w ++ added /\
      alternating (Z.to_nat cycles) = filter scheduler_event added ++ rest.
Proof.
  intros P E cycles w. unfold run_burst.
  destruct (burst_prefix P E cycles (py_range cycles) w)
    as (added & rest & Htrace & Hsched).
  exists added, rest. split; [ exact Htrace | ].
  rewrite <- Hsched. symmetry. apply schedule_alternating.
Qed.

(** *** Discovery inside a cycle *)

Lemma upserts_not_empty rows : forall t,
  t <> [] \/ rows <> [] -> fold_left insert_or_replace rows t <> [].
Proof.
  induction rows as [ | r rows IH ]; simpl; intros t H.
  - destruct H as [H | H]; [ exact H | congruence ].
  - apply IH. left. unfold insert_or_replace.
    destruct (ms_station_id r); intros Hnil; apply app_eq_nil in Hnil;
      destruct Hnil as (_ & Hnil); discriminate.
Qed.

(** X18. The first cycle on an empty registry bootstraps it: when the
    Discovery it calls returns at least one station, the registry is not
    empty afterwards and the same cycle goes on to collect, from a second
    GET. *)
Theorem a_cycle_on_an_empty_registry_bootstraps_it :
  forall P E w result w1,
    registry_ids w = [] ->
    discover_stations P E (log CallCollect w) = (Ok result, w1) ->
    result <> [] ->
    let w' := snd (collect_once P E w) in
    registry_ids w' <> [] /\
    monitored_stations (db w') = monitored_stations (db w1) /\
    gets w' = S (S (gets w)) /\
    trace w' = trace w ++ [CallCollect; CallDiscover; HttpGet; HttpGet].
Proof.
  intros P E w result w1 Hempty Hdisc Hres. simpl.
  assert (Hne : registry_ids w1 <> []).
  { pose proof Hdisc as Hd.
    rewrite discover_stations_eq in Hd. unfold discovery_outcome in Hd.
    destruct (fetch_result _) as [all | e].
    - destruct (discover_loop P all) as [nearby | e]; [ | discriminate ].
      rewrite upserts_eq in Hd.
      destruct (ms_rows_of P (sort_by_distance nearby)) as [rows | e] eqn:Hrows;
        [ | discriminate ].
      injection Hd as Hr <-. unfold registry_ids. simpl.
      intros Hnil. apply map_eq_nil in Hnil. revert Hnil.
      apply upserts_not_empty. right. intros ->.
      destruct (sort_by_distance nearby); [ congruence | ].
      simpl in Hrows. do 2 bind_ok Hrows. discriminate.
    - destruct (is_RequestException e); [ | discriminate ].
      injection Hd as Hr _. congruence. }
  pose proof (discovery_frame P E (log CallCollect w)) as Hframe.
  rewrite Hdisc in Hframe. simpl in Hframe.
  destruct Hframe as (Hgets & _ & Htrace & _).
  rewrite collect_once_eq, Hempty, Hdisc.
  destruct (registry_ids w1) as [ | sid ids ] eqn:Hids1; [ congruence | ].
  rewrite collect_stations_eq.
  destruct (collection_outcome P E (selected_ids w1) w1) as [r w'] eqn:Hout.
  destruct (collection_outcome_inv P E _ w1 r w' Hout)
    as (Hreg & Hgets' & Htrace' & _).
  simpl. unfold registry_ids in *. rewrite Hreg, Hids1.
  split; [ discriminate | ]. split; [ reflexivity | ].
  split; [ rewrite Hgets', Hgets; reflexivity | ].
  rewrite Htrace', Htrace, <- !app_assoc. reflexivity.
Qed.

(** *** [haversine] *)

Lemma py_float_raises v e :
  py_float v = Raise e -> e = TypeError \/ e = OverflowError.
Proof.
  destruct v; simpl; try discriminate;
    try (intros H; injection H as <-; auto).
  destruct (is_infinity (float_of_Z z)); [ | discriminate ].
  intros H. injection H as <-. auto.
Qed.

Lemma math_radians_raises v e :
  math_radians v = Raise e -> e = TypeError \/ e = OverflowError.
Proof.
  unfold math_radians. destruct (py_float v) eqn:Hv; simpl; [ discriminate | ].
  intros H. injection H as <-. exact (py_float_raises _ _ Hv).
Qed.

Lemma py_sub_raises a b e :
  py_sub a b = Raise e -> e = TypeError \/ e = OverflowError.
Proof.
  unfold py_sub.
  assert (Hfloat : (x <- py_float a ;; y <- py_float b ;;
                    Ok (JFloat (x - y)%float))%res = Raise e ->
                   e = TypeError \/ e = OverflowError).
  { destruct (py_float a) eqn:Ha; simpl.
    - destruct (py_float b) eqn:Hb; simpl; [ discriminate | ].
      intros H. injection H as <-. exact (py_float_raises _ _ Hb).
    - intros H. injection H as <-. exact (py_float_raises _ _ Ha). }
  destruct a, b; try exact Hfloat; try discriminate;
    simpl; intros H; injection H as <-; auto.
Qed.

Lemma math_1_raises f x e : math_1 f x = Raise e -> e = ValueError.
Proof.
  unfold math_1. destruct (_ && _); [ congruence | ].
  destruct (_ && _); congruence.
Qed.

Lemma math_2_raises f x y e :
  math_2 f x y = Raise e -> e = ValueError \/ e = OverflowError.
Proof.
  unfold math_2. destruct (is_nan _).
  - destruct (_ && _); [ | discriminate ]. intros H. injection H as <-. auto.
  - destruct (is_infinity _); [ | discriminate ].
    destruct (_ && _); [ | discriminate ]. intros H. injection H as <-. auto.
Qed.

Lemma float_pow2_raises P x e : float_pow2 P x = Raise e -> e = OverflowError.
Proof.
  unfold float_pow2.
  repeat match goal with
    | |- (if ?c then _ else _) = _ -> _ => destruct c; try discriminate
    end.
  congruence.
Qed.

(** X19. Whatever its four arguments, when [haversine] does not return it
    raises a TypeError (a coordinate that is not a number), an OverflowError
    (an int too large for a float, a square that overflows) or a ValueError
    (a math domain error), and nothing else. *)
Theorem haversine_raises_only_three_errors :
  forall P lat1 lon1 lat2 lon2 e,
    haversine P lat1 lon1 lat2 lon2 = Raise e ->
    e = TypeError \/ e = OverflowError \/ e = ValueError.
Proof.
  intros P lat1 lon1 lat2 lon2 e. unfold haversine.
  repeat match goal with
    | |- rbind ?c _ = Raise _ -> _ =>
        let Hx := fresh "Hx" in
        destruct c eqn:Hx; simpl;
        [ | intros Heq; injection Heq as <-;
            first [ apply math_radians_raises in Hx
                  | apply py_sub_raises in Hx
                  | apply math_1_raises in Hx
                  | apply float_pow2_raises in Hx
                  | apply math_2_raises in Hx ];
            tauto ]
    end.
  discriminate.
Qed.

(** ** The further properties on the worlds above *)

Lemma parse_properties_keeps_the_last_recognized_witness :
  dict_get [("NbBikes", JStr "5"); ("Locked", JStr "")] "NbBikes"
  = if existsb (String.eqb "NbBikes") recognized_keys
    then bag_value bag_twice "NbBikes" else None.
Proof.
  apply (parse_properties_keeps_the_last_recognized (JArr bag_twice) bag_twice
           [("NbBikes", JStr "5"); ("Locked", JStr "")]).
  - reflexivity.
  - reflexivity.
Defined.

Lemma discovery_returns_nearest_first_witness :
  StronglySorted by_distance
    (discovered small_angle_platform feed_1 (world_with [])) /\
  forall all nearby,
    fetch_result (http_get feed_1 (gets (world_with []))) = Ok all ->
    discover_loop small_angle_platform all = Ok nearby ->
    Permutation nearby (discovered small_angle_platform feed_1 (world_with [])) /\
    forall d,
      filter (fun n => nb_distance_m n =? d)
        (discovered small_angle_platform feed_1 (world_with []))
      = filter (fun n => nb_distance_m n =? d) nearby.
Proof.
  apply (discovery_returns_nearest_first small_angle_platform feed_1
           (world_with []) _
           (snd (discover_stations small_angle_platform feed_1 (world_with [])))).
  vm_compute. reflexivity.
Defined.

Lemma discovery_returns_one_entry_per_station_in_radius_witness :
  exists nearby,
    Forall2 (entry_of small_angle_platform)
      (filter (in_radius small_angle_platform)
         [station_S1; station_S2; station_S3]) nearby /\
    Permutation nearby (discovered small_angle_platform feed_1 (world_with [])).
Proof.
  apply (discovery_returns_one_entry_per_station_in_radius
           small_angle_platform feed_1 (world_with []) 200 catalog_1 _ _
           (snd (discover_stations small_angle_platform feed_1 (world_with [])))).
  - reflexivity.
  - reflexivity.
  - reflexivity.
  - vm_compute. reflexivity.
Defined.

Lemma discovery_never_forgets_a_station_witness :
  In (Some "S9")
     (registry_ids (snd (discover_stations small_angle_platform feed_1
                           (world_with [ms_row_S "S9"])))) <->
  In (Some "S9") (registry_ids (world_with [ms_row_S "S9"])) \/
  exists n,
    In n (discovered small_angle_platform feed_1 (world_with [ms_row_S "S9"])) /\
    nb_station_id n = JStr "S9".
Proof.
  apply (discovery_never_forgets_a_station small_angle_platform feed_1
           (world_with [ms_row_S "S9"])).
  - vm_compute. reflexivity.
  - intros n Hn. vm_compute in Hn.
    destruct Hn as [<- | [<- | []]]; eexists; reflexivity.
Defined.

Lemma discovery_keeps_registry_keys_unique_witness :
  NoDup (text_keys
           (monitored_stations
              (db (snd (discover_stations small_angle_platform feed_1
                          (world_with [ms_row_S "S3"; ms_row_S "S9"])))))).
Proof.
  apply (discovery_keeps_registry_keys_unique small_angle_platform feed_1
           (world_with [ms_row_S "S3"; ms_row_S "S9"])).
  simpl. repeat constructor; simpl; intuition discriminate.
Defined.

Lemma one_bad_coordinate_aborts_discovery_witness :
  let E := feed_always (Response 200 (Some (JArr [station_S1; station_text_lat]))) in
  (exists e',
     fst (discover_stations small_angle_platform E (world_with [])) = Raise e') /\
  db (snd (discover_stations small_angle_platform E (world_with [])))
  = db (world_with []).
Proof.
  apply (one_bad_coordinate_aborts_discovery small_angle_platform
           (feed_always (Response 200 (Some (JArr [station_S1; station_text_lat]))))
           (world_with []) 200 (JArr [station_S1; station_text_lat])
           [station_S1; station_text_lat] station_text_lat TypeError).
  - reflexivity.
  - reflexivity.
  - reflexivity.
  - simpl. tauto.
  - vm_compute. reflexivity.
Defined.

Lemma collector_only_reads_a_registry_that_is_not_empty_witness :
  let w := world_with [ms_row_S "S1"] in
  let w' := snd (collect_once small_angle_platform feed_1 w) in
  monitored_stations (db w') = monitored_stations (db w) /\
  trace w' = trace w ++ [CallCollect; HttpGet] /\
  gets w' = S (gets w) /\
  ticks w' = S (S (ticks w)).
Proof.
  apply (collector_only_reads_a_registry_that_is_not_empty
           small_angle_platform feed_1 (world_with [ms_row_S "S1"])).
  discriminate.
Defined.

Lemma one_row_per_serviceable_station_in_key_order_witness :
  let w := world_with [ms_row_S "S3"; ms_row_S "S2"; ms_row_S "S1"] in
  let w' := snd (collect_once small_angle_platform feed_1 w) in
  exists new,
    bike_availability (db w') = bike_availability (db w) ++ new /\
    map (fun row => Some (ba_station_id row)) new
    = filter (serviceable_in [station_S1; station_S2; station_S3])
        (selected_ids w') /\
    Permutation (map (fun row => Some (ba_station_id row)) new)
      (filter (serviceable_in [station_S1; station_S2; station_S3])
         (registry_ids w')) /\
    StronglySorted
      (fun a b => String.leb (ba_station_id a) (ba_station_id b) = true) new /\
    (NoDup (text_keys (monitored_stations (db w'))) ->
     NoDup (map ba_station_id new)).
Proof.
  apply (one_row_per_serviceable_station_in_key_order
           small_angle_platform feed_1
           (world_with [ms_row_S "S3"; ms_row_S "S2"; ms_row_S "S1"])
           _ 200 catalog_1).
  - vm_compute. reflexivity.
  - reflexivity.
  - reflexivity.
Defined.

Lemma a_reading_is_a_snapshot_of_the_feed_witness :
  let w := world_with [ms_row_S "S3"; ms_row_S "S1"] in
  let w' := snd (collect_once small_angle_platform feed_1 w) in
  exists new,
    bike_availability (db w') = bike_availability (db w) ++ new /\
    forall row, In row new ->
      exists station,
        catalog_entry [station_S1; station_S2; station_S3]
          (Some (ba_station_id row)) = Some station /\
        snapshot_of small_angle_platform (utc_now feed_1 (ticks w)) station row.
Proof.
  apply (a_reading_is_a_snapshot_of_the_feed
           small_angle_platform feed_1
           (world_with [ms_row_S "S3"; ms_row_S "S1"]) _ 200 catalog_1).
  - vm_compute. reflexivity.
  - reflexivity.
  - reflexivity.
Defined.

Lemma one_station_without_id_aborts_the_cycle_witness :
  let E := feed_always (Response 200 (Some (JArr [station_S1; station_no_id]))) in
  let w := world_with [ms_row_S "S1"] in
  (exists e, fst (collect_once small_angle_platform E w) = Raise e) /\
  bike_availability (db (snd (collect_once small_angle_platform E w)))
  = bike_availability (db w).
Proof.
  apply (one_station_without_id_aborts_the_cycle small_angle_platform
           (feed_always (Response 200 (Some (JArr [station_S1; station_no_id]))))
           (world_with [ms_row_S "S1"]) 200
           (JArr [station_S1; station_no_id])
           [station_S1; station_no_id] station_no_id).
  - reflexivity.
  - reflexivity.
  - reflexivity.
  - vm_compute. discriminate.
  - simpl. tauto.
  - intros k Hk. vm_compute in Hk. discriminate Hk.
Defined.

Lemma missing_field_aborts_the_cycle_witness :
  let E := feed_always (Response 200 (Some (JArr [station_S1; station_no_name]))) in
  let w := world_with [ms_row_S "S1"; ms_row_S "S6"] in
  (exists e, fst (collect_once small_angle_platform E w) = Raise e) /\
  bike_availability (db (snd (collect_once small_angle_platform E w)))
  = bike_availability (db w).
Proof.
  apply (missing_field_aborts_the_cycle small_angle_platform
           (feed_always (Response 200 (Some (JArr [station_S1; station_no_name]))))
           (world_with [ms_row_S "S1"; ms_row_S "S6"]) 200
           (JArr [station_S1; station_no_name])
           [station_S1; station_no_name] "S6" station_no_name []
           "commonName" KeyError).
  - reflexivity.
  - reflexivity.
  - reflexivity.
  - vm_compute. tauto.
  - vm_compute. reflexivity.
  - vm_compute. reflexivity.
  - vm_compute. reflexivity.
  - simpl. tauto.
  - vm_compute. reflexivity.
Defined.

Lemma burst_alternates_cycles_and_sleeps_witness :
  let w := world_with [ms_row_S "S1"] in
  exists added,
    trace (snd (run_burst small_angle_platform feed_1 3 w)) = trace w ++ added /\
    filter scheduler_event added = alternating (Z.to_nat 3).
Proof.
  apply (burst_alternates_cycles_and_sleeps small_angle_platform feed_1 3
           (world_with [ms_row_S "S1"])).
  vm_compute. reflexivity.
Defined.

Lemma a_cycle_on_an_empty_registry_bootstraps_it_witness :
  let w := world_with [] in
  let w' := snd (collect_once small_angle_platform feed_1 w) in
  registry_ids w' <> [] /\
  monitored_stations (db w')
  = monitored_stations
      (db (snd (discover_stations small_angle_platform feed_1
                  (log CallCollect w)))) /\
  gets w' = S (S (gets w)) /\
  trace w' = trace w ++ [CallCollect; CallDiscover; HttpGet; HttpGet].
Proof.
  apply (a_cycle_on_an_empty_registry_bootstraps_it small_angle_platform feed_1
           (world_with [])
           (discovered small_angle_platform feed_1 (log CallCollect (world_with [])))
           (snd (discover_stations small_angle_platform feed_1
                   (log CallCollect (world_with []))))).
  - reflexivity.
  - vm_compute. reflexivity.
  - vm_compute. discriminate.
Defined.

Lemma haversine_raises_only_three_errors_witness :
  TypeError = TypeError \/ TypeError = OverflowError \/ TypeError = ValueError.
Proof.
  apply (haversine_raises_only_three_errors small_angle_platform
           (JStr "51.5") (JFloat (-0.171875)) IMPERIAL_LAT IMPERIAL_LON).
  vm_compute. reflexivity.
Defined.
